(** * N26 statement parser: text-to-transactions extraction

    A shallow embedding of [pdf_parser.go] (balance and transaction
    extraction from the text of a statement) together with the parts of Go's
    [strings] and [regexp] packages the parser calls.

    Go strings are byte sequences: [len] counts bytes, [strings.Contains]
    compares bytes, and the regular expressions used here only name ASCII
    classes and the literal euro sign, so a string is modelled as a list of
    bytes ([ascii]) and a non-ASCII literal is its UTF-8 encoding. *)

From Stdlib Require Import Ascii String.
From Stdlib Require Import List ZArith NArith Lia Bool Arith.
From Stdlib Require DecimalString Sorted.
Import ListNotations.

Set Implicit Arguments.

(** ** Byte strings *)

Definition str := list ascii.

(** A string literal of the source, as its bytes. *)
Definition lit (s : string) : str := list_ascii_of_string s.

Definition code (c : ascii) : N := N_of_ascii c.

Definition isEmpty (s : str) : bool :=
  match s with [] => true | _ :: _ => false end.

Fixpoint eqb_str (a b : str) : bool :=
  match a, b with
  | [], [] => true
  | x :: a', y :: b' => Ascii.eqb x y && eqb_str a' b'
  | _, _ => false
  end.

(** ** The functions of Go's [strings] package used by the parser *)

Module GoStrings.

Fixpoint HasPrefix (s prefix : str) : bool :=
  match prefix, s with
  | [], _ => true
  | p :: ps, c :: cs => Ascii.eqb c p && HasPrefix cs ps
  | _ :: _, [] => false
  end.

(** [strings.Contains]: some position of [s] starts with [substr]. *)
Fixpoint Contains (s substr : str) : bool :=
  HasPrefix s substr
  || match s with [] => false | _ :: s' => Contains s' substr end.

Definition HasSuffix (s suffix : str) : bool :=
  (length suffix <=? length s)
  && eqb_str (skipn (length s - length suffix) s) suffix.

(** [strings.TrimSuffix]: [s[:len(s)-len(suffix)]] when [s] ends with
    [suffix], [s] otherwise. *)
Definition TrimSuffix (s suffix : str) : str :=
  if HasSuffix s suffix then firstn (length s - length suffix) s else s.

(** [strings.Split(s, "\n")]: the fields between newlines; always at least
    one field. *)
Fixpoint SplitLines (s : str) : list str :=
  match s with
  | [] => [[]]
  | c :: s' =>
      if Ascii.eqb c "010" then [] :: SplitLines s'
      else match SplitLines s' with
           | l :: ls => (c :: l) :: ls
           | [] => [[c]]
           end
  end.

(** White space as [unicode.IsSpace] sees it, on the UTF-8 bytes.  One-byte
    code points: tab, line feed, vertical tab, form feed, carriage return,
    space. *)
Definition isSpaceASCII (c : ascii) : bool :=
  let n := code c in
  ((9 <=? n) && (n <=? 13) || (n =? 32))%N.

(** U+0085 and U+00A0, encoded [C2 85] and [C2 A0]. *)
Definition isSpace2 (c1 c2 : ascii) : bool :=
  ((code c1 =? 194) && ((code c2 =? 133) || (code c2 =? 160)))%N.

(** U+1680, U+2000..U+200A, U+2028, U+2029, U+202F, U+205F, U+3000. *)
Definition isSpace3 (c1 c2 c3 : ascii) : bool :=
  let a := code c1 in let b := code c2 in let c := code c3 in
  ( (a =? 225) && (b =? 154) && (c =? 128)
 || (a =? 226) && (b =? 128)
      && ((128 <=? c) && (c <=? 138) || (c =? 168) || (c =? 169) || (c =? 175))
 || (a =? 226) && (b =? 129) && (c =? 159)
 || (a =? 227) && (b =? 128) && (c =? 128))%N.

(** [strings.TrimLeftFunc(s, unicode.IsSpace)]: a leading byte that does not
    start the encoding of a space (in particular an invalid or truncated
    sequence, which decodes to U+FFFD) stops the trimming. *)
Fixpoint trimLeft (s : str) : str :=
  match s with
  | [] => []
  | c1 :: s1 =>
      if isSpaceASCII c1 then trimLeft s1
      else match s1 with
           | [] => s
           | c2 :: s2 =>
               if isSpace2 c1 c2 then trimLeft s2
               else match s2 with
                    | [] => s
                    | c3 :: s3 => if isSpace3 c1 c2 c3 then trimLeft s3 else s
                    end
           end
  end.

(** The same from the end, on the reversed bytes: [c1] is the last byte. *)
Fixpoint trimRev (r : str) : str :=
  match r with
  | [] => []
  | c1 :: r1 =>
      if isSpaceASCII c1 then trimRev r1
      else match r1 with
           | [] => r
           | c2 :: r2 =>
               if isSpace2 c2 c1 then trimRev r2
               else match r2 with
                    | [] => r
                    | c3 :: r3 => if isSpace3 c3 c2 c1 then trimRev r3 else r
                    end
           end
  end.

Definition trimRight (s : str) : str := rev (trimRev (rev s)).

(** [strings.TrimSpace]. *)
Definition TrimSpace (s : str) : str := trimRight (trimLeft s).

Definition isASCII (c : ascii) : bool := (code c <? 128)%N.

Definition lowerASCII (c : ascii) : ascii :=
  let n := code c in
  if ((65 <=? n) && (n <=? 90))%N then ascii_of_N (n + 32) else c.

(** [strings.ToLower]: the ASCII fast path is written out; a string with a
    byte above 127 goes through [strings.Map(unicode.ToLower, s)], whose
    case table is a parameter [unicodeLower] of the development.  The
    parser lowers one such string of its own, the skip pattern
    "Descripción"; a statement that depends on its lower-case form says
    so. *)
Definition ToLower (unicodeLower : str -> str) (s : str) : str :=
  if forallb isASCII s then map lowerASCII s else unicodeLower s.

End GoStrings.

(** ** Regular expressions

    The four patterns of the parser are built from byte classes, literals,
    concatenation, greedy [?], greedy [*] and [+] over a class, and the
    anchors.  [run] is a backtracking matcher in continuation-passing style:
    it tries the alternatives in the priority order of Go's (leftmost-first)
    [regexp] and hands the rest of the input to [k]. *)

Module Regexp.

Inductive regex : Type :=
| Cls (p : ascii -> bool)       (* one byte of a class *)
| Lit (bs : str)                (* a literal byte sequence *)
| Cat (r1 r2 : regex)           (* r1 r2 *)
| Opt (r : regex)               (* r? *)
| Star (p : ascii -> bool)      (* c* on a class *)
| Eot.                          (* $ *)

Definition Plus (p : ascii -> bool) : regex := Cat (Cls p) (Star p).

Fixpoint Repeat (n : nat) (r : regex) : regex :=
  match n with
  | 0 => Lit []
  | 1 => r
  | S m => Cat r (Repeat m r)
  end.

Fixpoint stripPrefix (bs s : str) : option str :=
  match bs, s with
  | [], _ => Some s
  | b :: bs', c :: s' => if Ascii.eqb c b then stripPrefix bs' s' else None
  | _ :: _, [] => None
  end.

Section Run.
Variable R : Type.

Fixpoint star (p : ascii -> bool) (s : str) (k : str -> option R) : option R :=
  match s with
  | c :: s' =>
      if p c then
        match star p s' k with
        | Some x => Some x
        | None => k s
        end
      else k s
  | [] => k []
  end.

Fixpoint run (r : regex) (s : str) (k : str -> option R) : option R :=
  match r with
  | Cls p =>
      match s with
      | c :: s' => if p c then k s' else None
      | [] => None
      end
  | Lit bs =>
      match stripPrefix bs s with
      | Some s' => k s'
      | None => None
      end
  | Cat r1 r2 => run r1 s (fun s' => run r2 s' k)
  | Opt r1 =>
      match run r1 s k with
      | Some x => Some x
      | None => k s
      end
  | Star p => star p s k
  | Eot =>
      match s with
      | [] => k []
      | _ :: _ => None
      end
  end.
End Run.

(** A compiled pattern: [bol] records a leading [^]. *)
Record Regexp : Type := MustCompile { bol : bool; body : regex }.

(** The preferred match starting at the head of [s], if any. *)
Definition matchHere (r : regex) (s : str) : option str :=
  match run r s (fun rest => Some rest) with
  | Some rest => Some (firstn (length s - length rest) s)
  | None => None
  end.

Fixpoint matchAnywhere (r : regex) (s : str) : bool :=
  match matchHere r s with
  | Some _ => true
  | None => match s with [] => false | _ :: s' => matchAnywhere r s' end
  end.

(** [re.MatchString(s)]. *)
Definition MatchString (re : Regexp) (s : str) : bool :=
  if bol re then
    match matchHere (body re) s with Some _ => true | None => false end
  else matchAnywhere (body re) s.

(** Successive leftmost matches, left to right, without overlap: after a
    match of [n] bytes the next [n - 1] positions are skipped.  (After an
    empty match Go steps one position; no pattern of the parser matches the
    empty string.) *)
Fixpoint findAllFrom (r : regex) (skip : nat) (s : str) : list str :=
  match skip with
  | S k =>
      match s with
      | [] => []
      | _ :: s' => findAllFrom r k s'
      end
  | 0 =>
      match matchHere r s with
      | Some m =>
          m :: match s with
               | [] => []
               | _ :: s' => findAllFrom r (length m - 1) s'
               end
      | None =>
          match s with
          | [] => []
          | _ :: s' => findAllFrom r 0 s'
          end
      end
  end.

(** [re.FindAllString(s, -1)]. *)
Definition FindAllString (re : Regexp) (s : str) : list str :=
  if bol re then
    match matchHere (body re) s with Some m => [m] | None => [] end
  else findAllFrom (body re) 0 s.

(** The classes the patterns name. *)
Definition digit (c : ascii) : bool := ((48 <=? code c) && (code c <=? 57))%N.

(** Perl's [\s] in RE2: tab, line feed, form feed, carriage return, space. *)
Definition space (c : ascii) : bool :=
  let n := code c in
  ((n =? 9) || (n =? 10) || (n =? 12) || (n =? 13) || (n =? 32))%N.

Definition oneOf (cs : str) (c : ascii) : bool := existsb (Ascii.eqb c) cs.

End Regexp.

Import GoStrings Regexp.

(** ** The parser *)

Record Transaction : Type := mkTransaction {
  BookingDate : str;
  ValueDate : str;
  PartnerName : str;
  Amount : str
}.

Record AccountBalance : Type := mkAccountBalance { Balance : str }.

(** A Go [(value, error)] result. *)
Inductive result (A : Type) : Type :=
| Ok (a : A)
| Err (msg : string).
Arguments Ok {A} a.
Arguments Err {A} msg.

(** [max] of the source, on Go's [int]. *)
Definition max (a b : Z) : Z := if (a >? b)%Z then a else b.

(** [for j := lo; j < hi; j++]: the indices visited. *)
Definition range (lo hi : Z) : list Z :=
  map (fun k => (lo + Z.of_nat k)%Z) (seq 0 (Z.to_nat (hi - lo))).

(** [lines[j]] for an index within bounds. *)
Definition at_ (lines : list str) (j : Z) : str := nth (Z.to_nat j) lines [].

Definition len (s : str) : Z := Z.of_nat (length s).

Definition euro : str := lit "€".

(** [`(\d{2}\.\d{2}\.\d{4})`] *)
Definition datePattern : Regexp :=
  MustCompile false
    (Cat (Repeat 2 (Cls digit))
      (Cat (Lit (lit "."))
        (Cat (Repeat 2 (Cls digit))
          (Cat (Lit (lit ".")) (Repeat 4 (Cls digit)))))).

(** [`([+-]?\d+[.,]\d{2})\s*€?`], the pattern of both [balancePattern] and
    [amountPattern]. *)
Definition amountPattern : Regexp :=
  MustCompile false
    (Cat (Opt (Cls (oneOf (lit "+-"))))
      (Cat (Plus digit)
        (Cat (Cls (oneOf (lit ".,")))
          (Cat (Repeat 2 (Cls digit))
            (Cat (Star space) (Opt (Lit euro))))))).

Definition balancePattern : Regexp := amountPattern.

(** [`^[+-]?\d+,\d{2}\s*€?\s*$`] *)
Definition amountLinePattern : Regexp :=
  MustCompile true
    (Cat (Opt (Cls (oneOf (lit "+-"))))
      (Cat (Plus digit)
        (Cat (Lit (lit ","))
          (Cat (Repeat 2 (Cls digit))
            (Cat (Star space)
              (Cat (Opt (Lit euro)) (Cat (Star space) Eot))))))).

(** [`^\d+\s*/\s*\d+$`] *)
Definition pageNumberPattern : Regexp :=
  MustCompile true
    (Cat (Plus digit)
      (Cat (Star space)
        (Cat (Lit (lit "/"))
          (Cat (Star space) (Cat (Plus digit) Eot))))).

(** The amount text of a matched line or balance:
    [TrimSpace], [TrimSuffix(_, "€")], [TrimSpace]. *)
Definition stripAmount (s : str) : str :=
  TrimSpace (TrimSuffix (TrimSpace s) euro).

(** *** Balance extraction *)

(** The balance read from [lines[i+1]] after a marker line. *)
Definition balanceAfter (lines : list str) (i : Z) : option AccountBalance :=
  if (i + 1 <? Z.of_nat (length lines))%Z then
    let nextLine := TrimSpace (at_ lines (i + 1)) in
    let amounts := FindAllString balancePattern nextLine in
    if (0 <? length amounts)%nat then
      Some (mkAccountBalance (stripAmount (last amounts [])))
    else None
  else None.

(** One iteration of the loop of [parseBalanceFromText]: [Some b] when the
    iteration returns [b], [None] when the loop goes on. *)
Definition balanceStep (lines : list str) (i : Z) : option AccountBalance :=
  let line := TrimSpace (at_ lines i) in
  let spanish :=
    if Contains line (lit "Tu nuevo saldo") || Contains line (lit "tu nuevo saldo")
    then balanceAfter lines i else None in
  match spanish with
  | Some b => Some b
  | None =>
      if Contains line (lit "Your new balance") || Contains line (lit "your new balance")
      then balanceAfter lines i else None
  end.

Fixpoint balanceLoop (lines : list str) (idx : list Z) : option AccountBalance :=
  match idx with
  | [] => None
  | i :: rest =>
      match balanceStep lines i with
      | Some b => Some b
      | None => balanceLoop lines rest
      end
  end.

Definition parseBalanceFromText (text : str) : result AccountBalance :=
  let lines := SplitLines text in
  match balanceLoop lines (range 0 (Z.of_nat (length lines))) with
  | Some b => Ok b
  | None => Err "balance not found in PDF"
  end.

(** *** Transaction extraction *)

Definition setValueDate (tx : Transaction) (d : str) : Transaction :=
  mkTransaction (BookingDate tx) d (PartnerName tx) (Amount tx).

Definition setBookingDate (tx : Transaction) (d : str) : Transaction :=
  mkTransaction d (ValueDate tx) (PartnerName tx) (Amount tx).

Definition setPartnerName (tx : Transaction) (n : str) : Transaction :=
  mkTransaction (BookingDate tx) (ValueDate tx) n (Amount tx).

(** The body of the date loop, on [lines[j]]. *)
Definition dateStep (tx : Transaction) (rawLine : str) : Transaction :=
  let checkLine := TrimSpace rawLine in
  let tx1 :=
    if Contains checkLine (lit "Fecha de valor") then
      match FindAllString datePattern checkLine with
      | d :: _ => setValueDate tx d
      | [] => tx
      end
    else tx in
  if isEmpty (BookingDate tx1) && negb (Contains checkLine (lit "Fecha de valor")) then
    match FindAllString datePattern checkLine with
    | d :: _ =>
        if (len checkLine <? 20)%Z then
          let tx2 := setBookingDate tx1 d in
          if isEmpty (ValueDate tx2) then setValueDate tx2 d else tx2
        else tx1
    | [] => tx1
    end
  else tx1.

(** [for j := max(0, i-10); j < i; j++]. *)
Definition resolveDates (lines : list str) (i : Z) (tx : Transaction) : Transaction :=
  fold_left (fun t j => dateStep t (at_ lines j)) (range (max 0 (i - 10)) i) tx.

(** The substrings that mark a header or metadata line. *)
Definition metadataWords : list str :=
  [ lit "Fecha"; lit "Descripción"; lit "Cantidad"; lit "Mastercard";
    lit "IBAN"; lit "BIC"; lit "Emitido"; lit "Transferencias";
    lit "Enviada"; lit "Actividad"; lit "salientes" ].

(** The [continue] condition of the partner loop. *)
Definition skipped (checkLine : str) : bool :=
  (len checkLine <? 3)%Z
  || MatchString datePattern checkLine
  || MatchString amountPattern checkLine
  || existsb (Contains checkLine) metadataWords.

(** The body of the partner loop, on [lines[j]]. *)
Definition partnerStep (tx : Transaction) (rawLine : str) : Transaction :=
  let checkLine := TrimSpace rawLine in
  if skipped checkLine then tx
  else if (len checkLine >? 2)%Z then
         if isEmpty (PartnerName tx) || (len checkLine >? len (PartnerName tx))%Z
         then setPartnerName tx checkLine
         else tx
       else tx.

(** [for j := max(0, i-8); j < i-1; j++]. *)
Definition resolvePartner (lines : list str) (i : Z) (tx : Transaction) : Transaction :=
  fold_left (fun t j => partnerStep t (at_ lines j)) (range (max 0 (i - 8)) (i - 1)) tx.

Definition skipPatterns : list str :=
  [ lit "Saldo previo"; lit "Saldo"; lit "Balance"; lit "Emitido";
    lit "Descripción"; lit "Fecha de reserva"; lit "Cantidad";
    lit "Actividad de la cuenta" ].

Section Parser.

(** [strings.Map(unicode.ToLower, _)], Go's Unicode case mapping. *)
Variable unicodeLower : str -> str.

Definition isRealTransaction (tx : Transaction) : bool :=
  let partnerName := TrimSpace (PartnerName tx) in
  if isEmpty partnerName then false
  else if MatchString pageNumberPattern partnerName then false
  else
    let partnerLower := ToLower unicodeLower partnerName in
    if existsb (fun pattern => Contains partnerLower (ToLower unicodeLower pattern))
               skipPatterns
    then false
    else if (len partnerName <? 3)%Z then false
    else true.

(** The body of the main loop at line [i]: the transaction appended there,
    if any. *)
Definition transactionAt (lines : list str) (i : Z) : option Transaction :=
  let line := TrimSpace (at_ lines i) in
  if isEmpty line then None
  else if MatchString amountLinePattern line then
    let amount := stripAmount line in
    let tx := mkTransaction [] [] [] amount in
    let tx := resolveDates lines i tx in
    let tx := resolvePartner lines i tx in
    if negb (isEmpty (BookingDate tx)) && negb (isEmpty (Amount tx)) then
      if Contains (Amount tx) (lit ",") then
        if isRealTransaction tx then
          Some (if isEmpty (ValueDate tx)
                then setValueDate tx (BookingDate tx) else tx)
        else None
      else None
    else None
  else None.

Definition appendAt (lines : list str) (acc : list Transaction) (i : Z)
  : list Transaction :=
  match transactionAt lines i with
  | Some tx => acc ++ [tx]
  | None => acc
  end.

Definition parseTransactionsFromText (text : str) : result (list Transaction) :=
  let lines := SplitLines text in
  Ok (fold_left (appendAt lines) (range 0 (Z.of_nat (length lines))) []).

End Parser.

(** The transaction block of line [i]: the fields resolved by the two
    backward scans, before the acceptance filter. *)
Definition blockAt (lines : list str) (i : Z) : Transaction :=
  resolvePartner lines i
    (resolveDates lines i
      (mkTransaction [] [] [] (stripAmount (TrimSpace (at_ lines i))))).

(** ** The notions of the statements *)

(** Text matched by a regular expression, with the input left over. *)
Inductive matches : regex -> str -> str -> Prop :=
| m_cls p c rest : p c = true -> matches (Cls p) (c :: rest) rest
| m_lit bs rest : matches (Lit bs) (bs ++ rest) rest
| m_cat r1 r2 s mid rest :
    matches r1 s mid -> matches r2 mid rest -> matches (Cat r1 r2) s rest
| m_opt_some r s rest : matches r s rest -> matches (Opt r) s rest
| m_opt_none r s : matches (Opt r) s s
| m_star_nil p s : matches (Star p) s s
| m_star_cons p c s rest :
    p c = true -> matches (Star p) s rest -> matches (Star p) (c :: s) rest
| m_eot : matches Eot [] [].

(** DD.MM.YYYY: two digits, a period, two digits, a period, four digits. *)
Definition isDateText (s : str) : bool :=
  match s with
  | [d1; d2; p1; m1; m2; p2; y1; y2; y3; y4] =>
      digit d1 && digit d2 && Ascii.eqb p1 "." && digit m1 && digit m2
      && Ascii.eqb p2 "." && digit y1 && digit y2 && digit y3 && digit y4
  | _ => false
  end.

Definition isSign (s : str) : Prop := s = [] \/ s = lit "+" \/ s = lit "-".

Definition isDigits (s : str) : Prop := s <> [] /\ forallb digit s = true.

(** A signed decimal with a comma before exactly two fractional digits and
    nothing else: no currency symbol, no white space. *)
Definition isSignedCommaDecimal (s : str) : Prop :=
  exists sign ds d1 d2,
    s = sign ++ ds ++ [","%char; d1; d2]
    /\ isSign sign /\ isDigits ds /\ digit d1 = true /\ digit d2 = true.

(** The full-line amount pattern in the words of the specification:
    optional sign, digits, comma, two digits, optional currency symbol. *)
Definition specAmountLine (s : str) : Prop :=
  exists amount cur,
    s = amount ++ cur /\ isSignedCommaDecimal amount /\ (cur = [] \/ cur = euro).

(** The same with white space ([\s]) allowed before the currency symbol. *)
Definition amountLineText (s : str) : Prop :=
  exists amount ws cur,
    s = amount ++ ws ++ cur
    /\ isSignedCommaDecimal amount
    /\ forallb space ws = true
    /\ (cur = [] \/ cur = euro).

(** A bare page number: digits, a slash, digits, with optional white space
    around the slash. *)
Definition isPageNumber (s : str) : Prop :=
  exists n ws1 ws2 m,
    s = n ++ ws1 ++ lit "/" ++ ws2 ++ m
    /\ isDigits n /\ forallb space ws1 = true
    /\ forallb space ws2 = true /\ isDigits m.

(** The lines of the two backward windows of line [i]. *)
Definition dateWindow (i : Z) : list Z := range (max 0 (i - 10)) i.
Definition partnerWindow (i : Z) : list Z := range (max 0 (i - 8)) (i - 1).

Definition hasValueDateMarker (lines : list str) (j : Z) : bool :=
  Contains (TrimSpace (at_ lines j)) (lit "Fecha de valor").

(** Line [j] can supply the booking date [d]. *)
Definition bookingLine (lines : list str) (j : Z) (d : str) : Prop :=
  hasValueDateMarker lines j = false
  /\ (exists rest, FindAllString datePattern (TrimSpace (at_ lines j)) = d :: rest)
  /\ (len (TrimSpace (at_ lines j)) < 20)%Z.

(** Line [j] can supply the value date [d]. *)
Definition valueLine (lines : list str) (j : Z) (d : str) : Prop :=
  hasValueDateMarker lines j = true
  /\ exists rest, FindAllString datePattern (TrimSpace (at_ lines j)) = d :: rest.

Definition candidate (lines : list str) (j : Z) : bool :=
  negb (skipped (TrimSpace (at_ lines j))).

(** The four spellings [parseBalanceFromText] looks for. *)
Definition balanceMarkers : list str :=
  [ lit "Tu nuevo saldo"; lit "tu nuevo saldo";
    lit "Your new balance"; lit "your new balance" ].

Definition hasBalanceMarker (line : str) : bool :=
  existsb (Contains line) balanceMarkers.

(** The balance marker in any letter case, as the specification has it:
    an ASCII-lowered line contains ["tu nuevo saldo"] or
    ["your new balance"]. *)
Definition hasBalanceMarkerAnyCase (line : str) : bool :=
  Contains (map lowerASCII line) (lit "tu nuevo saldo")
  || Contains (map lowerASCII line) (lit "your new balance").

(** The least number of bytes a match of [r] consumes. *)
Fixpoint minLen (r : regex) : nat :=
  match r with
  | Cls _ => 1
  | Lit bs => length bs
  | Cat r1 r2 => minLen r1 + minLen r2
  | Opt _ | Star _ | Eot => 0
  end.

(** [s] begins with the encoding of a white-space code point. *)
Definition startsSpace (s : str) : bool :=
  match s with
  | [] => false
  | c1 :: s1 =>
      isSpaceASCII c1
      || match s1 with
         | [] => false
         | c2 :: s2 =>
             isSpace2 c1 c2
             || match s2 with
                | [] => false
                | c3 :: _ => isSpace3 c1 c2 c3
                end
         end
  end.

(** The reversed string [r] begins with a reversed encoding of a space:
    the string ends with white space. *)
Definition endsSpaceRev (r : str) : bool :=
  match r with
  | [] => false
  | c1 :: r1 =>
      isSpaceASCII c1
      || match r1 with
         | [] => false
         | c2 :: r2 =>
             isSpace2 c2 c1
             || match r2 with
                | [] => false
                | c3 :: _ => isSpace3 c3 c2 c1
                end
         end
  end.

#[local] Arguments isSpaceASCII : simpl never.
#[local] Arguments isSpace2 : simpl never.
#[local] Arguments isSpace3 : simpl never.

(** An ASCII byte that is not white space. *)
Definition plain (c : ascii) : bool := isASCII c && negb (isSpaceASCII c).

(** The dates of a block are those of the date scan started on empty
    fields; its partner name is the one of the partner scan started on an
    empty name. *)
Definition datesAt (lines : list str) (i : Z) : Transaction :=
  resolveDates lines i (mkTransaction [] [] [] (stripAmount (TrimSpace (at_ lines i)))).

(** Each date field is empty or a date. *)
Definition dated (t : Transaction) : Prop :=
  (isEmpty (BookingDate t) = true \/ isDateText (BookingDate t) = true)
  /\ (isEmpty (ValueDate t) = true \/ isDateText (ValueDate t) = true).

(** [name] is the longest candidate line of the window [l], and the first of
    that length. *)
Definition longestFirst (lines : list str) (l : list Z) (name : str) : Prop :=
  exists j,
    In j l /\ candidate lines j = true
    /\ name = TrimSpace (at_ lines j)
    /\ (forall k, In k l -> candidate lines k = true ->
                  (len (TrimSpace (at_ lines k)) <= len (TrimSpace (at_ lines j)))%Z)
    /\ (forall k, In k l -> candidate lines k = true ->
                  len (TrimSpace (at_ lines k)) = len (TrimSpace (at_ lines j)) ->
                  (j <= k)%Z).

(** Line [i] carries a marker and line [i+1] exists and holds an amount. *)
Definition answers (lines : list str) (i : Z) : bool :=
  hasBalanceMarker (TrimSpace (at_ lines i))
  && (i + 1 <? Z.of_nat (length lines))%Z
  && (0 <? length (FindAllString balancePattern (TrimSpace (at_ lines (i + 1)))))%nat.

(** The balance read from the line that follows line [i]. *)
Definition balanceOfNext (lines : list str) (i : Z) : AccountBalance :=
  mkAccountBalance
    (stripAmount (last (FindAllString balancePattern (TrimSpace (at_ lines (i + 1)))) [])).

(** ** Example statements *)

(** A case mapping for the examples: ASCII letters are lowered, other bytes
    are kept. *)
Definition lowerBytes (s : str) : str := map lowerASCII s.

Definition record (booking value partner amount : string) : Transaction :=
  mkTransaction (lit booking) (lit value) (lit partner) (lit amount).

(** Scenario A of the specification: the partner line directly above the
    amount. *)
Definition scenarioA : str :=
  lit "Fecha de valor 05.10.2025
05.10.2025
SUPERMARKET XYZ
-12,34€".

(** The layout of an N26 statement: partner, value date, booking date,
    amount. *)
Definition statementBlock : str :=
  lit "SUPERMARKET XYZ
Fecha de valor 05.10.2025
05.10.2025
-12,34€".

Definition supermarket : Transaction :=
  record "05.10.2025" "05.10.2025" "SUPERMARKET XYZ" "-12,34".

(** Scenario C of the specification. *)
Definition scenarioC : str :=
  lit "Tu nuevo saldo
Ref 12 1.234,56€".

Definition upperMarker : str :=
  lit "TU NUEVO SALDO
100,00€".

(** An amount line with a space before the currency symbol. *)
Definition spacedAmount : list str :=
  SplitLines (lit "SUPERMARKET XYZ
Fecha de valor 05.10.2025
05.10.2025
-12,34 €").

Definition periodAmount : list str :=
  SplitLines (lit "SUPERMARKET XYZ
Compras
05.10.2025
2.50").

Definition noValueDate : list str :=
  SplitLines (lit "SUPERMARKET XYZ
Compras
05.10.2025
-12,34€").

Definition twoPartners : list str :=
  SplitLines (lit "ALPHA SHOP
BRAVO SHOP
Compras
05.10.2025
-12,34€").

(** Scenario B of the specification. *)
Definition pageNumberBlock : list str :=
  SplitLines (lit "1 / 3
Fecha de valor 05.10.2025
05.10.2025
-12,34€").

Definition twoValueDates : list str :=
  SplitLines (lit "SUPERMARKET XYZ
Fecha de valor 01.10.2025
Fecha de valor 02.10.2025
05.10.2025
-12,34€").

(** ** Text extraction and the callers of the parser *)

(** [%d] of [fmt]. *)
Definition formatInt (n : Z) : string :=
  DecimalString.NilZero.string_of_int (Z.to_int n).

(** A document, as [ExtractText] sees it: what [doc.Text(i)] returns for
    each page, in page order; [doc.NumPage()] is the length. *)
Definition Document : Type := list (result str).

(** The loop of [ExtractText] from page [i] on, [textBuilder] holding the
    text written so far. *)
Fixpoint extractFrom (pages : Document) (i numPage : Z) (textBuilder : str)
  : result str :=
  match pages with
  | [] => Ok textBuilder
  | page :: rest =>
      match page with
      | Err err =>
          Err ("failed to extract text from page " ++ formatInt (i + 1)
               ++ ": " ++ err)%string
      | Ok text =>
          let textBuilder := textBuilder ++ text in
          let textBuilder :=
            if (i <? numPage - 1)%Z then textBuilder ++ lit "
" else textBuilder in
          extractFrom rest (i + 1) numPage textBuilder
      end
  end.

Definition ExtractText (doc : Document) : result str :=
  extractFrom doc 0 (Z.of_nat (length doc)) [].

(** The method [ParseTransactions] of [PDFParser]. *)
Definition ParseTransactions (unicodeLower : str -> str) (doc : Document)
  : result (list Transaction) :=
  match ExtractText doc with
  | Err err => Err err
  | Ok text => parseTransactionsFromText unicodeLower text
  end.

(** The method [ParseBalance] of [PDFParser]. *)
Definition ParseBalance (doc : Document) : result AccountBalance :=
  match ExtractText doc with
  | Err err => Err err
  | Ok text => parseBalanceFromText text
  end.

(** [strings.Join(texts, "\n")]. *)
Fixpoint joinLines (texts : list str) : str :=
  match texts with
  | [] => []
  | [t] => t
  | t :: rest => t ++ lit "
" ++ joinLines rest
  end.

(** [fmt.Sprintf("%s|%s|%s", date, partner, amount)]. *)
Definition generateStatementKey (date partner amount : str) : str :=
  date ++ lit "|" ++ partner ++ lit "|" ++ amount.

(** The [Statement] of [sendDiscordNotification]. *)
Record Statement : Type := mkStatement {
  Date : str;
  Partner : str;
  StatementAmount : str;
  Key : str
}.

(** The body of the loop of [sendDiscordNotification] that collects the
    statements not notified yet; [IsNotified] is the method of the
    repository.  A lookup that fails counts as not notified. *)
Definition collectStep (IsNotified : str -> result bool)
    (newStatements : list Statement) (tx : Transaction) : list Statement :=
  let bookingDate := BookingDate tx in
  let partnerName := PartnerName tx in
  let amount := Amount tx in
  let key := generateStatementKey bookingDate partnerName amount in
  let notified :=
    match IsNotified key with
    | Ok notified => notified
    | Err _ => false
    end in
  if negb notified
  then newStatements ++ [mkStatement bookingDate partnerName amount key]
  else newStatements.

Definition collectNew (IsNotified : str -> result bool)
    (transactions : list Transaction) : list Statement :=
  fold_left (collectStep IsNotified) transactions [].


(** The table [statements] restricted to its columns [statement_key] and
    [notified]; [statement_key] is the conflict target of the upsert, hence
    unique, so the table is a partial map.  The connection is taken to work:
    the results below are those of queries that return no driver error. *)
Definition Table : Type := str -> option bool.

(** [SELECT notified FROM statements WHERE statement_key = $1]; no row
    ([sql.ErrNoRows]) means not notified. *)
Definition IsNotified (db : Table) (key : str) : result bool :=
  match db key with
  | Some notified => Ok notified
  | None => Ok false
  end.

(** [INSERT ... VALUES ($1, true, ...) ON CONFLICT (statement_key) DO UPDATE
    SET notified = true]. *)
Definition upsertNotified (db : Table) (key : str) : Table :=
  fun k => if eqb_str k key then Some true else db k.

(** [MarkMultipleAsNotified]: one upsert per key, in order. *)
Definition MarkMultipleAsNotified (db : Table) (keys : list str) : Table :=
  fold_left upsertNotified keys db.

(** An optional sign, digits, a period or a comma, two digits. *)
Definition isSignedDecimal (s : str) : Prop :=
  exists sign ds sep d1 d2,
    s = sign ++ ds ++ [sep; d1; d2]
    /\ isSign sign /\ isDigits ds
    /\ (sep = "."%char \/ sep = ","%char)
    /\ digit d1 = true /\ digit d2 = true.

(** A text that begins with an ASCII byte other than white space and ends
    with a digit. *)
Definition coreText (s : str) : Prop :=
  (exists c r, s = c :: r /\ plain c = true)
  /\ (exists d r, rev s = d :: r /\ digit d = true).

(** [r] has no end-of-text anchor. *)
Fixpoint noEot (r : regex) : bool :=
  match r with
  | Cls _ | Lit _ | Star _ => true
  | Cat r1 r2 => noEot r1 && noEot r2
  | Opt r1 => noEot r1
  | Eot => false
  end.

(** The statement built from a transaction in [sendDiscordNotification]. *)
Definition statementOf (tx : Transaction) : Statement :=
  mkStatement (BookingDate tx) (PartnerName tx) (Amount tx)
    (generateStatementKey (BookingDate tx) (PartnerName tx) (Amount tx)).

(** The repository reports the key as notified. *)
Definition reportedNotified (IsNotified : str -> result bool) (key : str) : bool :=
  match IsNotified key with
  | Ok notified => notified
  | Err _ => false
  end.

(** The fields of [network.Cookie] that [formatCookiesAsHeader] reads. *)
Record Cookie : Type := mkCookie {
  Name : str;
  Value : str;
  Domain : str
}.

(** [strings.Join(parts, sep)]. *)
Fixpoint Join (parts : list str) (sep : str) : str :=
  match parts with
  | [] => []
  | [p] => p
  | p :: rest => p ++ sep ++ Join rest sep
  end.

(** The loop of [formatCookiesAsHeader]. *)
Definition cookieStep (parts : list str) (cookie : Cookie) : list str :=
  if Contains (Domain cookie) (lit "n26.com")
  then parts ++ [Name cookie ++ lit "=" ++ Value cookie]
  else parts.

Definition formatCookiesAsHeader (cookies : list Cookie) : str :=
  if (length cookies =? 0)%nat then []
  else Join (fold_left cookieStep cookies []) (lit "; ").

(** Each date of a block is empty or read from a line of the date window. *)
Definition sourced (lines : list str) (i : Z) (t : Transaction) : Prop :=
  (BookingDate t = []
   \/ exists j, In j (dateWindow i) /\ bookingLine lines j (BookingDate t))
  /\ (ValueDate t = []
      \/ exists j, In j (dateWindow i)
                   /\ (valueLine lines j (ValueDate t)
                       \/ bookingLine lines j (ValueDate t))).

(** ** Lemmas: indices *)

Lemma max_spec (a b : Z) : max a b = Z.max a b.
Proof. unfold max. destruct (Z.gtb_spec a b); lia. Qed.

Lemma In_range (lo hi j : Z) : In j (range lo hi) <-> (lo <= j < hi)%Z.
Proof.
  unfold range. rewrite in_map_iff. split.
  - intros [k [<- Hk]]. apply in_seq in Hk. lia.
  - intros H. exists (Z.to_nat (j - lo)). split; [lia|].
    apply in_seq. lia.
Qed.

Lemma range_empty (lo hi : Z) : (hi <= lo)%Z -> range lo hi = [].
Proof.
  intros H. unfold range. replace (Z.to_nat (hi - lo)) with 0%nat by lia.
  reflexivity.
Qed.

Lemma range_snoc (lo hi : Z) :
  (lo <= hi)%Z -> range lo (hi + 1) = range lo hi ++ [hi].
Proof.
  intros H. unfold range.
  replace (Z.to_nat (hi + 1 - lo)) with (Z.to_nat (hi - lo) + 1)%nat by lia.
  rewrite seq_app, map_app. simpl. f_equal. f_equal. lia.
Qed.

Lemma map_seq_from (A : Type) (f : nat -> A) (a n : nat) :
  map f (seq a n) = map (fun k => f (a + k)%nat) (seq 0 n).
Proof.
  revert f a. induction n as [|n IH]; intros f a; [reflexivity|].
  simpl. rewrite Nat.add_0_r. f_equal.
  rewrite (IH f (S a)), (IH (fun k => f (a + k)%nat) 1%nat).
  apply map_ext. intros k. f_equal. lia.
Qed.

Lemma range_split (lo mid hi : Z) :
  (lo <= mid <= hi)%Z -> range lo hi = range lo mid ++ range mid hi.
Proof.
  intros H. unfold range.
  replace (Z.to_nat (hi - lo))
    with (Z.to_nat (mid - lo) + Z.to_nat (hi - mid))%nat by lia.
  rewrite seq_app, map_app. f_equal.
  simpl. rewrite map_seq_from. apply map_ext. intros k. lia.
Qed.

(** ** Lemmas: the matcher *)

Lemma stripPrefix_app (bs rest : str) : stripPrefix bs (bs ++ rest) = Some rest.
Proof.
  induction bs as [|b bs IH]; simpl; [reflexivity|].
  now rewrite Ascii.eqb_refl.
Qed.

Lemma stripPrefix_inv (bs s s' : str) :
  stripPrefix bs s = Some s' -> s = bs ++ s'.
Proof.
  revert s. induction bs as [|b bs IH]; intros s H; simpl in *.
  - congruence.
  - destruct s as [|c s]; [discriminate|].
    destruct (Ascii.eqb_spec c b); [|discriminate].
    subst. f_equal. now apply IH.
Qed.

Lemma star_sound (R : Type) p s (k : str -> option R) x :
  star p s k = Some x -> exists rest, matches (Star p) s rest /\ k rest = Some x.
Proof.
  induction s as [|c s IH]; simpl; intros H.
  - exists []. split; [constructor|assumption].
  - destruct (p c) eqn:Hp.
    + destruct (star p s k) eqn:Hs.
      * inversion H; subst. destruct (IH eq_refl) as [rest [Hm Hk]].
        exists rest. split; [now constructor|assumption].
      * exists (c :: s). split; [constructor|assumption].
    + exists (c :: s). split; [constructor|assumption].
Qed.

Lemma run_sound (R : Type) r s (k : str -> option R) x :
  run r s k = Some x -> exists rest, matches r s rest /\ k rest = Some x.
Proof.
  revert s k x. induction r as [p|bs|r1 IH1 r2 IH2|r1 IH1|p|];
    intros s k x H; simpl in H.
  - destruct s as [|c s]; [discriminate|].
    destruct (p c) eqn:Hp; [|discriminate].
    exists s. split; [now constructor|assumption].
  - destruct (stripPrefix bs s) as [s'|] eqn:Hs; [|discriminate].
    apply stripPrefix_inv in Hs. subst.
    exists s'. split; [constructor|assumption].
  - apply IH1 in H. destruct H as [mid [H1 H]].
    apply IH2 in H. destruct H as [rest [H2 H]].
    exists rest. split; [econstructor; eassumption|assumption].
  - destruct (run r1 s k) eqn:Hr.
    + inversion H; subst. apply IH1 in Hr. destruct Hr as [rest [H1 Hk]].
      exists rest. split; [now constructor|assumption].
    + exists s. split; [apply m_opt_none|assumption].
  - now apply star_sound.
  - destruct s; [|discriminate]. exists []. split; [constructor|assumption].
Qed.

Lemma star_nil_complete (R : Type) p s (k : str -> option R) x :
  k s = Some x -> exists y, star p s k = Some y.
Proof.
  intros H. destruct s as [|c s]; simpl; [eauto|].
  destruct (p c); [|eauto]. destruct (star p s k); eauto.
Qed.

Lemma run_complete r s rest :
  matches r s rest ->
  forall (R : Type) (k : str -> option R) x,
    k rest = Some x -> exists y, run r s k = Some y.
Proof.
  induction 1 as [p c rest Hp|bs rest|r1 r2 s mid rest _ IH1 _ IH2
                 |r s rest _ IH|r s|p s|p c s rest Hp _ IH|];
    intros R k x Hk; simpl.
  - rewrite Hp. eauto.
  - rewrite stripPrefix_app. eauto.
  - destruct (IH2 R k x Hk) as [y Hy]. exact (IH1 R _ y Hy).
  - destruct (IH R k x Hk) as [y Hy]. rewrite Hy. eauto.
  - destruct (run r s k); eauto.
  - eapply star_nil_complete; eassumption.
  - rewrite Hp. destruct (IH R k x Hk) as [y Hy]. simpl in Hy.
    rewrite Hy. eauto.
  - eauto.
Qed.

Lemma matches_suffix r s rest : matches r s rest -> exists m, s = m ++ rest.
Proof.
  induction 1 as [p c rest Hp|bs rest|r1 r2 s mid rest _ IH1 _ IH2
                 |r s rest _ IH|r s|p s|p c s rest Hp _ IH|].
  - now exists [c].
  - now exists bs.
  - destruct IH1 as [m1 ->]. destruct IH2 as [m2 ->].
    exists (m1 ++ m2). now rewrite app_assoc.
  - assumption.
  - now exists [].
  - now exists [].
  - destruct IH as [m ->]. now exists (c :: m).
  - now exists [].
Qed.

Lemma matches_star_inv p s rest :
  matches (Star p) s rest -> exists ws, s = ws ++ rest /\ forallb p ws = true.
Proof.
  remember (Star p) as r eqn:Hr. induction 1; try discriminate.
  - now exists [].
  - inversion Hr; subst. destruct (IHmatches eq_refl) as [ws [-> Hws]].
    exists (c :: ws). simpl. now rewrite H, Hws.
Qed.

Lemma matches_star_intro p ws rest :
  forallb p ws = true -> matches (Star p) (ws ++ rest) rest.
Proof.
  induction ws as [|c ws IH]; simpl; intros H; [constructor|].
  apply andb_true_iff in H. destruct H as [Hc Hws].
  constructor; auto.
Qed.

Lemma firstn_matched (m rest : str) :
  firstn (length (m ++ rest) - length rest) (m ++ rest) = m.
Proof.
  rewrite length_app. replace (length m + length rest - length rest)%nat
    with (length m + 0)%nat by lia.
  rewrite firstn_app_2. simpl. apply app_nil_r.
Qed.

Lemma matchHere_sound r s m :
  matchHere r s = Some m -> exists rest, matches r s rest /\ s = m ++ rest.
Proof.
  unfold matchHere. destruct (run r s (fun rest => Some rest)) as [rest|] eqn:Hr;
    [|discriminate].
  intros H. inversion H; subst; clear H.
  apply run_sound in Hr. destruct Hr as [rest' [Hm Hk]].
  inversion Hk; subst. exists rest. split; [assumption|].
  destruct (matches_suffix Hm) as [m ->]. now rewrite firstn_matched.
Qed.

Lemma matchHere_complete r s rest :
  matches r s rest -> exists m, matchHere r s = Some m.
Proof.
  intros H. unfold matchHere.
  destruct (run_complete H (fun rest => Some rest) eq_refl) as [y ->]. eauto.
Qed.

(** Every string [FindAllString] returns is a match at some position. *)
Lemma findAllFrom_In r k s m :
  In m (findAllFrom r k s) -> exists s', matchHere r s' = Some m.
Proof.
  revert k. induction s as [|c s IH]; intros k H.
  - destruct k; simpl in H; [|contradiction].
    destruct (matchHere r []) eqn:Hm; simpl in H; [|contradiction].
    destruct H as [<-|[]]. eauto.
  - destruct k; simpl in H; [|eauto].
    destruct (matchHere r (c :: s)) eqn:Hm; [|eauto].
    destruct H as [<-|H]; eauto.
Qed.

Lemma FindAllString_In re s m :
  In m (FindAllString re s) -> exists s', matchHere (body re) s' = Some m.
Proof.
  unfold FindAllString. destruct (bol re).
  - destruct (matchHere (body re) s) eqn:Hm; simpl; [|contradiction].
    intros [<-|[]]. eauto.
  - apply findAllFrom_In.
Qed.

(** Inversion of a match of a pattern given in full. *)
Ltac invert_match :=
  repeat match goal with
    | H : matches (Cat _ _) _ _ |- _ => inversion H; subst; clear H
    | H : matches (Cls _) _ _ |- _ => inversion H; subst; clear H
    | H : matches (Lit _) _ _ |- _ => inversion H; subst; clear H
    | H : matches (Opt _) _ _ |- _ => inversion H; subst; clear H
    | H : matches Eot _ _ |- _ => inversion H; subst; clear H
    | H : matches (Plus _) _ _ |- _ => unfold Plus in H
    end.

Lemma date_match_shape s m :
  matchHere (body datePattern) s = Some m -> isDateText m = true.
Proof.
  intros H. apply matchHere_sound in H. destruct H as [rest [Hm Hs]].
  simpl in Hm. revert Hs. invert_match. simpl. intros Hs.
  assert (Hlen : length m = 10%nat).
  { apply (f_equal (@length ascii)) in Hs. rewrite length_app in Hs.
    simpl in Hs. lia. }
  do 10 (destruct m as [|? m]; [discriminate Hlen|]).
  destruct m; [|discriminate Hlen].
  simpl in Hs. inversion Hs; subst. simpl.
  repeat match goal with H : digit _ = true |- _ => rewrite H; clear H end.
  reflexivity.
Qed.

Lemma FindAllString_date_shape s d :
  In d (FindAllString datePattern s) -> isDateText d = true.
Proof.
  intros H. apply FindAllString_In in H. destruct H as [s' H].
  eapply date_match_shape; eassumption.
Qed.

Lemma isDateText_nonempty d : isDateText d = true -> isEmpty d = false.
Proof. destruct d; [discriminate|reflexivity]. Qed.

(** ** Lemmas: trimming *)

Lemma trimLeft_id s : startsSpace s = false -> trimLeft s = s.
Proof.
  destruct s as [|c1 [|c2 [|c3 s]]]; simpl; intros H;
    try reflexivity.
  all: destruct (isSpaceASCII c1); [discriminate H|]; try reflexivity.
  all: simpl in H.
  all: match type of H with
       | context [isSpace2 ?a ?b] => destruct (isSpace2 a b); [discriminate H|]
       end; try reflexivity.
  all: simpl in H; now rewrite H.
Qed.

Lemma trimRev_id r : endsSpaceRev r = false -> trimRev r = r.
Proof.
  destruct r as [|c1 [|c2 [|c3 r]]]; simpl; intros H;
    try reflexivity.
  all: destruct (isSpaceASCII c1); [discriminate H|]; try reflexivity.
  all: simpl in H.
  all: match type of H with
       | context [isSpace2 ?a ?b] => destruct (isSpace2 a b); [discriminate H|]
       end; try reflexivity.
  all: simpl in H; now rewrite H.
Qed.

Lemma trimLeft_clean_aux n : forall s,
  (length s <= n)%nat -> startsSpace (trimLeft s) = false.
Proof.
  induction n as [|n IH]; intros s Hn.
  - destruct s; [reflexivity|simpl in Hn; lia].
  - destruct s as [|c1 s1]; [reflexivity|]. simpl in Hn.
    simpl. destruct (isSpaceASCII c1) eqn:E1; [apply IH; lia|].
    destruct s1 as [|c2 s2]; [simpl; now rewrite E1|]. simpl in Hn.
    destruct (isSpace2 c1 c2) eqn:E2; [apply IH; lia|].
    destruct s2 as [|c3 s3]; [simpl; now rewrite E1, E2|]. simpl in Hn.
    destruct (isSpace3 c1 c2 c3) eqn:E3; [apply IH; lia|].
    simpl. now rewrite E1, E2, E3.
Qed.

Lemma trimLeft_clean s : startsSpace (trimLeft s) = false.
Proof. apply (trimLeft_clean_aux (n := length s)). lia. Qed.

Lemma trimRev_clean_aux n : forall r,
  (length r <= n)%nat ->
  endsSpaceRev (trimRev r) = false /\ exists junk, r = junk ++ trimRev r.
Proof.
  induction n as [|n IH]; intros r Hn.
  - destruct r; [|simpl in Hn; lia]. split; [reflexivity|now exists []].
  - destruct r as [|c1 r1]; [split; [reflexivity|now exists []]|].
    simpl in Hn. simpl. destruct (isSpaceASCII c1) eqn:E1.
    { destruct (IH r1) as [H [junk Hj]]; [lia|]. split; [assumption|].
      exists (c1 :: junk). simpl. now rewrite <- Hj. }
    destruct r1 as [|c2 r2].
    { split; [simpl; now rewrite E1|now exists []]. }
    simpl in Hn. destruct (isSpace2 c2 c1) eqn:E2.
    { destruct (IH r2) as [H [junk Hj]]; [lia|]. split; [assumption|].
      exists (c1 :: c2 :: junk). simpl. now rewrite <- Hj. }
    destruct r2 as [|c3 r3].
    { split; [simpl; now rewrite E1, E2|now exists []]. }
    simpl in Hn. destruct (isSpace3 c3 c2 c1) eqn:E3.
    { destruct (IH r3) as [H [junk Hj]]; [lia|]. split; [assumption|].
      exists (c1 :: c2 :: c3 :: junk). simpl. now rewrite <- Hj. }
    split; [simpl; now rewrite E1, E2, E3|now exists []].
Qed.

Lemma trimRev_clean r : endsSpaceRev (trimRev r) = false.
Proof. apply (trimRev_clean_aux (n := length r)). lia. Qed.

Lemma trimRev_suffix r : exists junk, r = junk ++ trimRev r.
Proof. apply (trimRev_clean_aux (n := length r)). lia. Qed.

Lemma startsSpace_prefix p q : startsSpace (p ++ q) = false -> startsSpace p = false.
Proof.
  destruct p as [|c1 [|c2 [|c3 p]]]; simpl; intros H; try reflexivity;
    try reflexivity.
  all: destruct (isSpaceASCII c1); [discriminate H|]; try reflexivity.
  all: simpl in H.
  all: match type of H with
       | context [isSpace2 ?a ?b] => destruct (isSpace2 a b); [discriminate H|]
       end; try reflexivity.
  all: simpl in H; now rewrite H.
Qed.

Lemma TrimSpace_clean s :
  startsSpace (TrimSpace s) = false /\ endsSpaceRev (rev (TrimSpace s)) = false.
Proof.
  unfold TrimSpace, trimRight. rewrite rev_involutive. split.
  - destruct (trimRev_suffix (rev (trimLeft s))) as [junk Hj].
    apply (f_equal (@rev ascii)) in Hj.
    rewrite rev_involutive, rev_app_distr in Hj.
    apply startsSpace_prefix with (q := rev junk). rewrite <- Hj.
    apply trimLeft_clean.
  - apply trimRev_clean.
Qed.

Lemma TrimSpace_id s :
  startsSpace s = false -> endsSpaceRev (rev s) = false -> TrimSpace s = s.
Proof.
  intros H1 H2. unfold TrimSpace, trimRight.
  rewrite trimLeft_id by assumption. rewrite trimRev_id by assumption.
  apply rev_involutive.
Qed.

Lemma TrimSpace_idempotent s : TrimSpace (TrimSpace s) = TrimSpace s.
Proof. destruct (TrimSpace_clean s). now apply TrimSpace_id. Qed.

Lemma plain_facts c :
  plain c = true -> (code c < 128)%N /\ isSpaceASCII c = false.
Proof.
  unfold plain, isASCII. intros H. apply andb_true_iff in H.
  destruct H as [H1 H2]. apply N.ltb_lt in H1.
  apply negb_true_iff in H2. auto.
Qed.

Lemma plain_starts c s : plain c = true -> startsSpace (c :: s) = false.
Proof.
  intros H. apply plain_facts in H. destruct H as [Hc Hs].
  assert (E : forall n, (128 <= n)%N -> (code c =? n)%N = false)
    by (intros n Hn; apply N.eqb_neq; lia).
  unfold startsSpace. rewrite Hs. unfold isSpace2, isSpace3.
  rewrite !E by lia. destruct s as [|c2 [|c3 s]]; reflexivity.
Qed.

Lemma plain_ends c r : plain c = true -> endsSpaceRev (c :: r) = false.
Proof.
  intros H. apply plain_facts in H. destruct H as [Hc Hs].
  assert (E : forall n, (128 <= n)%N -> (code c =? n)%N = false)
    by (intros n Hn; apply N.eqb_neq; lia).
  assert (E' : (128 <=? code c)%N = false) by (apply N.leb_gt; lia).
  unfold endsSpaceRev. rewrite Hs. unfold isSpace2, isSpace3.
  rewrite !E by lia. rewrite E'.
  destruct r as [|c2 [|c3 r]]; simpl; rewrite ?andb_false_r; reflexivity.
Qed.

Lemma space_isSpaceASCII c : space c = true -> isSpaceASCII c = true.
Proof.
  unfold space, isSpaceASCII. intros H.
  repeat (apply orb_true_iff in H; destruct H as [H|H]);
    apply N.eqb_eq in H; rewrite H; reflexivity.
Qed.

Lemma digit_plain c : digit c = true -> plain c = true.
Proof.
  unfold digit, plain, isASCII, isSpaceASCII. intros H.
  apply andb_true_iff in H. destruct H as [H1 H2].
  apply N.leb_le in H1. apply N.leb_le in H2.
  apply andb_true_iff. split; [apply N.ltb_lt; lia|].
  apply negb_true_iff. apply orb_false_iff. split.
  - apply andb_false_iff. right. apply N.leb_gt. lia.
  - apply N.eqb_neq. lia.
Qed.

(** Trailing [\s] bytes are trimmed away. *)
Lemma trimRev_spaces ws r :
  forallb space ws = true -> trimRev (rev ws ++ r) = trimRev r.
Proof.
  induction ws as [|c ws IH] using rev_ind; intros H; [reflexivity|].
  rewrite forallb_app in H. apply andb_true_iff in H. destruct H as [H1 H2].
  simpl in H2. rewrite andb_true_r in H2.
  rewrite rev_app_distr. simpl.
  rewrite (space_isSpaceASCII _ H2). now apply IH.
Qed.

(** A string that ends with a [\s] byte is not the result of a trim. *)
Lemma trimmed_no_trailing_space s x ws :
  TrimSpace s = x ++ ws -> forallb space ws = true -> ws = [].
Proof.
  intros Hs Hws. destruct (TrimSpace_clean s) as [_ He]. rewrite Hs in He.
  destruct ws as [|c ws] using rev_ind; [reflexivity|]. exfalso.
  rewrite forallb_app in Hws. apply andb_true_iff in Hws.
  destruct Hws as [_ Hc]. simpl in Hc. rewrite andb_true_r in Hc.
  rewrite app_assoc, rev_app_distr in He. simpl in He.
  rewrite (space_isSpaceASCII _ Hc) in He. discriminate.
Qed.

(** ** Lemmas: the amount and page-number patterns *)

Ltac invert_star :=
  repeat match goal with
    | H : matches (Star _) _ _ |- _ =>
        apply matches_star_inv in H; destruct H as [? [? ?]]; subst
    end.

Lemma oneOf_sign c : oneOf (lit "+-") c = true -> isSign [c].
Proof.
  unfold oneOf, isSign. simpl. intros H.
  destruct (Ascii.eqb_spec c "+"); [subst; auto|].
  destruct (Ascii.eqb_spec c "-"); [subst; auto|]. discriminate.
Qed.

Lemma isSign_oneOf sign :
  isSign sign -> sign = [] \/ exists c, sign = [c] /\ oneOf (lit "+-") c = true.
Proof.
  intros [->|[->| ->]]; [now left| |]; right; eexists; split; reflexivity.
Qed.

Lemma amountLine_match_inv s :
  MatchString amountLinePattern s = true ->
  exists amount ws1 cur ws2,
    s = amount ++ ws1 ++ cur ++ ws2
    /\ isSignedCommaDecimal amount
    /\ forallb space ws1 = true
    /\ (cur = [] \/ cur = euro)
    /\ forallb space ws2 = true.
Proof.
  unfold MatchString. simpl bol. cbv iota.
  destruct (matchHere (body amountLinePattern) s) as [m|] eqn:Hm; [|discriminate].
  intros _. apply matchHere_sound in Hm. destruct Hm as [rest [Hm _]].
  simpl in Hm. invert_match; invert_star.
  all: match goal with
       | Hs : oneOf _ ?sg = true
         |- exists _ _ _ _,
             ?sg :: ?d :: ?ds ++ _ ++ ?a :: ?b :: ?w1 ++ euro ++ ?w2 ++ [] = _ /\ _ =>
           exists ([sg] ++ (d :: ds) ++ [","%char; a; b]), w1, euro, w2;
           split; [|split; [exists [sg], (d :: ds), a, b|]]
       | Hs : oneOf _ ?sg = true
         |- exists _ _ _ _,
             ?sg :: ?d :: ?ds ++ _ ++ ?a :: ?b :: ?w1 ++ ?w2 ++ [] = _ /\ _ =>
           exists ([sg] ++ (d :: ds) ++ [","%char; a; b]), w1, [], w2;
           split; [|split; [exists [sg], (d :: ds), a, b|]]
       | |- exists _ _ _ _,
             ?d :: ?ds ++ _ ++ ?a :: ?b :: ?w1 ++ euro ++ ?w2 ++ [] = _ /\ _ =>
           exists ([] ++ (d :: ds) ++ [","%char; a; b]), w1, euro, w2;
           split; [|split; [exists [], (d :: ds), a, b|]]
       | |- exists _ _ _ _,
             ?d :: ?ds ++ _ ++ ?a :: ?b :: ?w1 ++ ?w2 ++ [] = _ /\ _ =>
           exists ([] ++ (d :: ds) ++ [","%char; a; b]), w1, [], w2;
           split; [|split; [exists [], (d :: ds), a, b|]]
       end.
  all: try (simpl; rewrite ?app_nil_r, <- ?app_assoc; reflexivity).
  all: try (repeat split; auto; try discriminate;
            try (apply oneOf_sign; assumption);
            try (left; reflexivity);
            simpl; apply andb_true_iff; split; assumption).
  all: repeat split; auto.
Qed.

Lemma amountLine_match_intro s :
  amountLineText s -> MatchString amountLinePattern s = true.
Proof.
  intros [amount [ws [cur [-> [[sign [ds [d1 [d2 [-> [Hsign [[Hne Hds] [H1 H2]]]]]]]]
                               [Hws Hcur]]]]]].
  assert (Hm : matches (body amountLinePattern)
                 ((sign ++ ds ++ [","%char; d1; d2]) ++ ws ++ cur) []).
  { destruct ds as [|d ds]; [congruence|]. simpl in Hds.
    apply andb_true_iff in Hds. destruct Hds as [Hd Hds].
    replace ((sign ++ (d :: ds) ++ [","%char; d1; d2]) ++ ws ++ cur)
      with (sign ++ d :: ds ++ lit "," ++ d1 :: d2 :: ws ++ cur ++ [])
      by (simpl; rewrite ?app_nil_r, <- ?app_assoc; simpl;
          rewrite <- ?app_assoc; reflexivity).
    simpl body. eapply m_cat.
    { instantiate (1 := d :: ds ++ lit "," ++ d1 :: d2 :: ws ++ cur ++ []).
      destruct (isSign_oneOf Hsign) as [->|[c [-> Hc]]].
      - apply m_opt_none.
      - apply m_opt_some. now apply m_cls. }
    eapply m_cat.
    { eapply m_cat; [now apply m_cls|]. now apply matches_star_intro. }
    eapply m_cat; [apply m_lit|].
    eapply m_cat.
    { simpl. eapply m_cat; apply m_cls; assumption. }
    eapply m_cat; [now apply matches_star_intro|].
    eapply m_cat.
    { instantiate (1 := []). destruct Hcur as [->| ->].
      - apply m_opt_none.
      - apply m_opt_some. apply m_lit. }
    eapply m_cat; [apply m_star_nil|apply m_eot]. }
  unfold MatchString. simpl bol. cbv iota.
  destruct (matchHere_complete Hm) as [m ->]. reflexivity.
Qed.

Lemma pageNumber_match_intro s :
  isPageNumber s -> MatchString pageNumberPattern s = true.
Proof.
  intros [n [ws1 [ws2 [m [-> [[Hn Hnd] [H1 [H2 [Hm Hmd]]]]]]]]].
  assert (M : matches (body pageNumberPattern)
                (n ++ ws1 ++ lit "/" ++ ws2 ++ m) []).
  { destruct n as [|a n]; [congruence|]. destruct m as [|b m]; [congruence|].
    simpl in Hnd, Hmd. apply andb_true_iff in Hnd, Hmd.
    destruct Hnd as [Ha Hnd]. destruct Hmd as [Hb Hmd].
    replace ((a :: n) ++ ws1 ++ lit "/" ++ ws2 ++ b :: m)
      with (a :: n ++ ws1 ++ lit "/" ++ ws2 ++ b :: m ++ [])
      by (simpl; rewrite ?app_nil_r; reflexivity).
    simpl body. eapply m_cat.
    { eapply m_cat; [now apply m_cls|]. now apply matches_star_intro. }
    eapply m_cat; [now apply matches_star_intro|].
    eapply m_cat; [apply m_lit|].
    eapply m_cat; [now apply matches_star_intro|].
    eapply m_cat; [|apply m_eot].
    eapply m_cat; [now apply m_cls|]. now apply matches_star_intro. }
  unfold MatchString. simpl bol. cbv iota.
  destruct (matchHere_complete M) as [x ->]. reflexivity.
Qed.

Lemma matches_minLen r s rest :
  matches r s rest -> (length rest + minLen r <= length s)%nat.
Proof.
  induction 1; simpl; rewrite ?length_app; lia.
Qed.

(** The amount pattern consumes at least four bytes, so [FindAllString]
    never meets an empty match with it (nor with the date pattern, whose
    matches are ten bytes long). *)
Lemma amount_match_nonempty s m :
  matchHere (body amountPattern) s = Some m -> m <> [].
Proof.
  intros H. apply matchHere_sound in H. destruct H as [rest [Hm Hs]].
  intros ->. simpl in Hs. subst s.
  apply matches_minLen in Hm. simpl in Hm. lia.
Qed.

(** ** Lemmas: the amount text *)

Lemma eqb_str_eq a b : eqb_str a b = true <-> a = b.
Proof.
  revert b. induction a as [|x a IH]; intros [|y b]; simpl;
    try (split; [discriminate|congruence]); [tauto|].
  rewrite andb_true_iff, IH. split.
  - intros [H ->]. apply Ascii.eqb_eq in H. now subst.
  - intros H. inversion H; subst. split; [apply Ascii.eqb_refl|reflexivity].
Qed.

Lemma HasSuffix_inv s suffix :
  HasSuffix s suffix = true -> exists p, s = p ++ suffix.
Proof.
  unfold HasSuffix. intros H. apply andb_true_iff in H. destruct H as [_ H].
  apply eqb_str_eq in H. set (n := (length s - length suffix)%nat) in *.
  exists (firstn n s). rewrite <- (firstn_skipn n s) at 1. now rewrite H.
Qed.

Lemma TrimSuffix_app p suffix : TrimSuffix (p ++ suffix) suffix = p.
Proof.
  unfold TrimSuffix, HasSuffix. rewrite length_app.
  replace (length p + length suffix - length suffix)%nat
    with (length p + 0)%nat by lia.
  rewrite skipn_app, firstn_app_2, Nat.add_0_r, skipn_all.
  replace (length p - length p)%nat with 0%nat by lia. simpl.
  rewrite app_nil_r.
  replace (eqb_str suffix suffix) with true by (symmetry; now apply eqb_str_eq).
  replace (length suffix <=? length p + length suffix)%nat with true
    by (symmetry; apply Nat.leb_le; lia).
  reflexivity.
Qed.

Lemma decimal_ends a :
  isSignedCommaDecimal a ->
  (exists c s, a = c :: s /\ plain c = true)
  /\ (exists d r, rev a = d :: r /\ digit d = true).
Proof.
  intros [sign [ds [d1 [d2 [-> [Hsign [[Hne Hds] [H1 H2]]]]]]]]. split.
  - destruct ds as [|d ds]; [congruence|]. simpl in Hds.
    apply andb_true_iff in Hds. destruct Hds as [Hd _].
    destruct Hsign as [->|[->| ->]]; simpl; eexists; eexists;
      (split; [reflexivity|]); try reflexivity. now apply digit_plain.
  - rewrite !rev_app_distr. simpl. eauto.
Qed.

Lemma decimal_no_euro a : isSignedCommaDecimal a -> TrimSuffix a euro = a.
Proof.
  intros Ha. unfold TrimSuffix. destruct (HasSuffix a euro) eqn:H; [|reflexivity].
  exfalso. apply HasSuffix_inv in H. destruct H as [p Hp].
  destruct (decimal_ends Ha) as [_ [d [r [Hr Hd]]]].
  rewrite Hp, rev_app_distr in Hr. simpl in Hr. inversion Hr; subst.
  discriminate Hd.
Qed.

Lemma decimal_trim_spaces a ws :
  isSignedCommaDecimal a -> forallb space ws = true -> TrimSpace (a ++ ws) = a.
Proof.
  intros Ha Hws. destruct (decimal_ends Ha) as [[c [s [Hs Hc]]] [d [r [Hr Hd]]]].
  unfold TrimSpace, trimRight. rewrite trimLeft_id.
  - rewrite rev_app_distr, trimRev_spaces by assumption.
    rewrite trimRev_id; [apply rev_involutive|].
    rewrite Hr. apply plain_ends. now apply digit_plain.
  - rewrite Hs. simpl. now apply plain_starts.
Qed.

(** A trimmed line that matches the full-line amount pattern, taken apart,
    and the amount text the parser keeps of it. *)
Lemma amountLine_trimmed raw :
  MatchString amountLinePattern (TrimSpace raw) = true ->
  exists amount ws cur,
    TrimSpace raw = amount ++ ws ++ cur
    /\ isSignedCommaDecimal amount
    /\ forallb space ws = true
    /\ (cur = [] \/ cur = euro)
    /\ stripAmount (TrimSpace raw) = amount.
Proof.
  intros H. apply amountLine_match_inv in H.
  destruct H as [amount [ws1 [cur [ws2 [Hs [Ha [H1 [Hcur H2]]]]]]]].
  assert (ws2 = []).
  { apply (@trimmed_no_trailing_space raw (amount ++ ws1 ++ cur) ws2);
      [|assumption]. rewrite Hs, <- !app_assoc. reflexivity. }
  subst ws2. rewrite app_nil_r in Hs.
  unfold stripAmount. rewrite TrimSpace_idempotent.
  destruct Hcur as [->| ->].
  - rewrite app_nil_r in Hs.
    assert (ws1 = []) by (eapply trimmed_no_trailing_space; eassumption).
    subst ws1. rewrite app_nil_r in Hs.
    exists amount, [], []. rewrite Hs, app_nil_r.
    repeat split; auto.
    rewrite decimal_no_euro by assumption.
    rewrite <- (app_nil_r amount) at 1. now apply decimal_trim_spaces.
  - exists amount, ws1, euro. repeat split; auto.
    rewrite Hs, app_assoc, TrimSuffix_app. now apply decimal_trim_spaces.
Qed.

(** ** Lemmas: the two backward scans *)

Lemma dateStep_keeps t raw :
  PartnerName (dateStep t raw) = PartnerName t
  /\ Amount (dateStep t raw) = Amount t.
Proof.
  unfold dateStep.
  destruct (Contains (TrimSpace raw) (lit "Fecha de valor"));
    destruct (FindAllString datePattern (TrimSpace raw)); simpl;
    repeat (match goal with
            | |- context [if ?b then _ else _] => destruct b
            end; simpl); auto.
Qed.

Lemma partnerStep_keeps t raw :
  BookingDate (partnerStep t raw) = BookingDate t
  /\ ValueDate (partnerStep t raw) = ValueDate t
  /\ Amount (partnerStep t raw) = Amount t.
Proof.
  unfold partnerStep.
  destruct (skipped (TrimSpace raw)); [auto|].
  destruct (len (TrimSpace raw) >? 2)%Z; [|auto].
  destruct (isEmpty (PartnerName t) || (len (TrimSpace raw) >? len (PartnerName t))%Z);
    simpl; auto.
Qed.

Lemma fold_invariant (A B : Type) (f : A -> B -> A) (P : A -> Prop) (l : list B) :
  (forall a b, In b l -> P a -> P (f a b)) ->
  forall a, P a -> P (fold_left f l a).
Proof.
  induction l as [|b l IH]; intros Hf a Ha; simpl; [assumption|].
  apply IH.
  - intros a' b' Hb'. apply Hf. now right.
  - apply Hf; [now left|assumption].
Qed.

Lemma resolveDates_keeps lines i t :
  PartnerName (resolveDates lines i t) = PartnerName t
  /\ Amount (resolveDates lines i t) = Amount t.
Proof.
  unfold resolveDates.
  apply (fold_invariant (fun t j => dateStep t (at_ lines j))
           (fun x => PartnerName x = PartnerName t /\ Amount x = Amount t));
    [|auto].
  intros a j _ [H1 H2]. destruct (dateStep_keeps a (at_ lines j)) as [E1 E2].
  rewrite E1, E2. auto.
Qed.

Lemma resolvePartner_keeps lines i t :
  BookingDate (resolvePartner lines i t) = BookingDate t
  /\ ValueDate (resolvePartner lines i t) = ValueDate t
  /\ Amount (resolvePartner lines i t) = Amount t.
Proof.
  unfold resolvePartner.
  apply (fold_invariant (fun t j => partnerStep t (at_ lines j))
           (fun x => BookingDate x = BookingDate t
                     /\ ValueDate x = ValueDate t /\ Amount x = Amount t));
    [|auto].
  intros a j _ [H1 [H2 H3]].
  destruct (partnerStep_keeps a (at_ lines j)) as [E1 [E2 E3]].
  rewrite E1, E2, E3. auto.
Qed.

Lemma blockAt_fields lines i :
  BookingDate (blockAt lines i) = BookingDate (datesAt lines i)
  /\ ValueDate (blockAt lines i) = ValueDate (datesAt lines i)
  /\ Amount (blockAt lines i) = stripAmount (TrimSpace (at_ lines i))
  /\ PartnerName (datesAt lines i) = [].
Proof.
  unfold blockAt. fold (datesAt lines i).
  destruct (resolvePartner_keeps lines i (datesAt lines i)) as [E1 [E2 E3]].
  destruct (resolveDates_keeps lines i
              (mkTransaction [] [] [] (stripAmount (TrimSpace (at_ lines i)))))
    as [E4 E5].
  fold (datesAt lines i) in E4, E5. rewrite E1, E2, E3, E5. auto.
Qed.

Section ParserFacts.

Variable unicodeLower : str -> str.

Lemma transactionAt_inv lines i tx :
  transactionAt unicodeLower lines i = Some tx ->
  MatchString amountLinePattern (TrimSpace (at_ lines i)) = true
  /\ isEmpty (BookingDate (blockAt lines i)) = false
  /\ isRealTransaction unicodeLower (blockAt lines i) = true
  /\ tx = (if isEmpty (ValueDate (blockAt lines i))
           then setValueDate (blockAt lines i) (BookingDate (blockAt lines i))
           else blockAt lines i).
Proof.
  unfold transactionAt. fold (blockAt lines i).
  destruct (isEmpty (TrimSpace (at_ lines i))); [discriminate|].
  destruct (MatchString amountLinePattern (TrimSpace (at_ lines i)));
    [|discriminate].
  intros H.
  destruct (isEmpty (BookingDate (blockAt lines i)));
    [simpl in H; discriminate H|].
  destruct (isEmpty (Amount (blockAt lines i)));
    [simpl in H; discriminate H|].
  cbn [negb andb] in H.
  destruct (Contains (Amount (blockAt lines i)) (lit ","));
    [|discriminate H].
  destruct (isRealTransaction unicodeLower (blockAt lines i)); [|discriminate H].
  inversion H. auto.
Qed.

Lemma transactionAt_no_match lines i :
  MatchString amountLinePattern (TrimSpace (at_ lines i)) = false ->
  transactionAt unicodeLower lines i = None.
Proof.
  intros H. unfold transactionAt. rewrite H.
  now destruct (isEmpty (TrimSpace (at_ lines i))).
Qed.

Lemma transactionAt_not_real lines i :
  isRealTransaction unicodeLower (blockAt lines i) = false ->
  transactionAt unicodeLower lines i = None.
Proof.
  intros H. unfold transactionAt. fold (blockAt lines i). rewrite H.
  destruct (isEmpty (TrimSpace (at_ lines i))); [reflexivity|].
  destruct (MatchString amountLinePattern (TrimSpace (at_ lines i)));
    [|reflexivity].
  destruct (negb (isEmpty (BookingDate (blockAt lines i)))
            && negb (isEmpty (Amount (blockAt lines i)))); [|reflexivity].
  now destruct (Contains (Amount (blockAt lines i)) (lit ",")).
Qed.

Lemma appendAt_fold lines l acc :
  fold_left (appendAt unicodeLower lines) l acc
  = acc ++ flat_map (fun i => match transactionAt unicodeLower lines i with
                              | Some tx => [tx]
                              | None => []
                              end) l.
Proof.
  revert acc. induction l as [|i l IH]; intros acc; simpl.
  - now rewrite app_nil_r.
  - rewrite IH. unfold appendAt.
    destruct (transactionAt unicodeLower lines i); simpl.
    + now rewrite <- app_assoc.
    + reflexivity.
Qed.

(** A returned record is the one appended at some line. *)
Lemma parse_In text txs tx :
  parseTransactionsFromText unicodeLower text = Ok txs ->
  In tx txs ->
  exists i, (0 <= i < Z.of_nat (length (SplitLines text)))%Z
            /\ transactionAt unicodeLower (SplitLines text) i = Some tx.
Proof.
  unfold parseTransactionsFromText. intros H Hin. inversion H; subst; clear H.
  rewrite appendAt_fold in Hin. simpl in Hin. apply in_flat_map in Hin.
  destruct Hin as [i [Hi Hin]]. apply In_range in Hi. exists i. split; [lia|].
  destruct (transactionAt unicodeLower (SplitLines text) i); [|contradiction].
  destruct Hin as [->|[]]. reflexivity.
Qed.

End ParserFacts.

(** *** The date scan *)

Ltac date_cases raw :=
  unfold dateStep;
  destruct (Contains (TrimSpace raw) (lit "Fecha de valor")) eqn:?;
  destruct (FindAllString datePattern (TrimSpace raw)) eqn:?; simpl;
  rewrite ?andb_true_r, ?andb_false_r;
  repeat (match goal with
          | |- context [if ?b then _ else _] => destruct b eqn:?
          end; simpl).

Lemma dateStep_dated t raw : dated t -> dated (dateStep t raw).
Proof.
  intros [Hb Hv].
  assert (Hd : forall d rest,
             FindAllString datePattern (TrimSpace raw) = d :: rest ->
             isDateText d = true).
  { intros d rest E. apply (@FindAllString_date_shape (TrimSpace raw)).
    rewrite E. now left. }
  date_cases raw; split; auto;
    try (right; eapply Hd; reflexivity);
    destruct Hb as [Hb|Hb]; destruct Hv as [Hv|Hv]; auto; congruence.
Qed.

Lemma dateStep_no_marker t raw :
  Contains (TrimSpace raw) (lit "Fecha de valor") = false ->
  ValueDate t = BookingDate t ->
  ValueDate (dateStep t raw) = BookingDate (dateStep t raw).
Proof.
  intros Hc Hv. date_cases raw; try discriminate; auto.
  rewrite Hv in *. congruence.
Qed.

Lemma dateStep_booking_kept t raw :
  isEmpty (BookingDate t) = false ->
  BookingDate (dateStep t raw) = BookingDate t.
Proof. intros H. date_cases raw; auto; congruence. Qed.

Lemma dateStep_booking_none t raw :
  BookingDate t = [] ->
  ~ (Contains (TrimSpace raw) (lit "Fecha de valor") = false
     /\ (exists d rest, FindAllString datePattern (TrimSpace raw) = d :: rest)
     /\ (len (TrimSpace raw) < 20)%Z) ->
  BookingDate (dateStep t raw) = [].
Proof.
  intros H Hn. date_cases raw; auto.
  all: exfalso; apply Hn; repeat split; eauto; now apply Z.ltb_lt.
Qed.

Lemma dateStep_booking_set t raw d rest :
  BookingDate t = [] ->
  Contains (TrimSpace raw) (lit "Fecha de valor") = false ->
  FindAllString datePattern (TrimSpace raw) = d :: rest ->
  (len (TrimSpace raw) < 20)%Z ->
  BookingDate (dateStep t raw) = d.
Proof.
  intros H Hc Hf Hl. apply Z.ltb_lt in Hl. unfold dateStep.
  rewrite Hc, Hf, Hl, H. simpl. now destruct (isEmpty (ValueDate t)).
Qed.

Lemma dateStep_value_set t raw d rest :
  Contains (TrimSpace raw) (lit "Fecha de valor") = true ->
  FindAllString datePattern (TrimSpace raw) = d :: rest ->
  ValueDate (dateStep t raw) = d.
Proof.
  intros Hc Hf. unfold dateStep. rewrite Hc, Hf. simpl.
  now rewrite andb_false_r.
Qed.

Lemma dateStep_value_kept t raw :
  isEmpty (ValueDate t) = false ->
  ~ (Contains (TrimSpace raw) (lit "Fecha de valor") = true
     /\ exists d rest, FindAllString datePattern (TrimSpace raw) = d :: rest) ->
  ValueDate (dateStep t raw) = ValueDate t.
Proof.
  intros H Hn. date_cases raw; auto; try congruence.
  all: exfalso; apply Hn; eauto.
Qed.

Lemma range_cut (lo hi j : Z) :
  (lo <= j < hi)%Z -> range lo hi = range lo j ++ j :: range (j + 1) hi.
Proof.
  intros H. rewrite (@range_split lo j hi) by lia. f_equal.
  rewrite (@range_split j (j + 1) hi) by lia.
  rewrite (@range_snoc j j) by lia. now rewrite range_empty by lia.
Qed.

Lemma datesAt_dated lines i : dated (datesAt lines i).
Proof.
  unfold datesAt, resolveDates.
  apply (fold_invariant (fun t j => dateStep t (at_ lines j)) dated).
  - intros a j _. apply dateStep_dated.
  - split; now left.
Qed.

(** The first line of the window that can supply a booking date supplies
    it. *)
Lemma booking_first_wins lines i j d :
  In j (dateWindow i) ->
  bookingLine lines j d ->
  (forall k d', In k (dateWindow i) -> (k < j)%Z -> ~ bookingLine lines k d') ->
  BookingDate (datesAt lines i) = d.
Proof.
  unfold dateWindow. intros Hj [Hc [[rest Hf] Hl]] Hfirst.
  pose proof Hj as Hr. apply In_range in Hr.
  unfold datesAt, resolveDates. rewrite (@range_cut _ i j) by assumption.
  rewrite fold_left_app. simpl.
  set (t0 := mkTransaction [] [] [] (stripAmount (TrimSpace (at_ lines i)))).
  set (step := fun t k => dateStep t (at_ lines k)).
  assert (H1 : BookingDate (fold_left step (range (max 0 (i - 10)) j) t0) = []).
  { apply (fold_invariant step (fun x => BookingDate x = [])); [|reflexivity].
    intros a k Hk Ha. apply In_range in Hk. unfold step.
    apply dateStep_booking_none; [assumption|].
    intros [Hc' [[d' [rest' Hf']] Hl']].
    apply (Hfirst k d'); [apply In_range; lia|lia|].
    repeat split; eauto. }
  assert (Hd : isEmpty d = false).
  { apply isDateText_nonempty.
    apply (@FindAllString_date_shape (TrimSpace (at_ lines j))).
    rewrite Hf. now left. }
  apply (fold_invariant step (fun x => BookingDate x = d)).
  - intros a k _ Ha. unfold step. rewrite dateStep_booking_kept; [assumption|].
    now rewrite Ha.
  - subst step. cbv beta in *. eapply dateStep_booking_set; eassumption.
Qed.

(** The last line of the window that can supply a value date supplies it. *)
Lemma value_last_wins lines i j d :
  In j (dateWindow i) ->
  valueLine lines j d ->
  (forall k d', In k (dateWindow i) -> (j < k)%Z -> ~ valueLine lines k d') ->
  ValueDate (datesAt lines i) = d.
Proof.
  unfold dateWindow. intros Hj [Hc [rest Hf]] Hlast.
  pose proof Hj as Hr. apply In_range in Hr.
  unfold datesAt, resolveDates. rewrite (@range_cut _ i j) by assumption.
  rewrite fold_left_app. simpl.
  set (step := fun t k => dateStep t (at_ lines k)).
  assert (Hd : isEmpty d = false).
  { apply isDateText_nonempty.
    apply (@FindAllString_date_shape (TrimSpace (at_ lines j))).
    rewrite Hf. now left. }
  apply (fold_invariant step (fun x => ValueDate x = d)).
  - intros a k Hk Ha. apply In_range in Hk. unfold step.
    rewrite dateStep_value_kept; [assumption|now rewrite Ha|].
    intros [Hc' [d' [rest' Hf']]].
    apply (Hlast k d'); [apply In_range; lia|lia|].
    split; eauto.
  - subst step. cbv beta in *. eapply dateStep_value_set; eassumption.
Qed.

(** Without a value-date marker in the window the two dates agree. *)
Lemma dates_agree_without_marker lines i :
  (forall j, In j (dateWindow i) -> hasValueDateMarker lines j = false) ->
  ValueDate (datesAt lines i) = BookingDate (datesAt lines i).
Proof.
  intros H. unfold datesAt, resolveDates.
  apply (fold_invariant (fun t j => dateStep t (at_ lines j))
           (fun x => ValueDate x = BookingDate x)); [|reflexivity].
  intros a j Hj Ha. apply dateStep_no_marker; [|assumption].
  apply H. exact Hj.
Qed.

(** *** The partner scan *)

Lemma skipped_false_len s : skipped s = false -> (3 <= len s)%Z.
Proof.
  unfold skipped. intros H.
  repeat (apply orb_false_iff in H; destruct H as [H _]).
  apply Z.ltb_ge in H. exact H.
Qed.

Lemma partnerStep_skipped t raw :
  skipped (TrimSpace raw) = true -> partnerStep t raw = t.
Proof. intros H. unfold partnerStep. now rewrite H. Qed.

Lemma partnerStep_candidate t raw :
  skipped (TrimSpace raw) = false ->
  partnerStep t raw
  = if isEmpty (PartnerName t) || (len (TrimSpace raw) >? len (PartnerName t))%Z
    then setPartnerName t (TrimSpace raw) else t.
Proof.
  intros H. unfold partnerStep. rewrite H.
  apply skipped_false_len in H.
  replace (len (TrimSpace raw) >? 2)%Z with true; [reflexivity|].
  symmetry. apply Z.gtb_lt. lia.
Qed.

Lemma len_nonempty s : (3 <= len s)%Z -> isEmpty s = false.
Proof. destruct s; [unfold len; simpl; lia|reflexivity]. Qed.

Lemma range_count (lo hi : Z) :
  range lo hi = range lo (lo + Z.of_nat (Z.to_nat (hi - lo))).
Proof. unfold range. do 2 f_equal. lia. Qed.

Lemma partner_scan lines lo t0 n :
  PartnerName t0 = [] ->
  let l := range lo (lo + Z.of_nat n) in
  let t := fold_left (fun t j => partnerStep t (at_ lines j)) l t0 in
  ((forall k, In k l -> candidate lines k = false) /\ PartnerName t = [])
  \/ longestFirst lines l (PartnerName t).
Proof.
  intros H0. induction n as [|n IH]; cbv zeta in *.
  - rewrite range_empty by lia. left. split; [intros k []|exact H0].
  - replace (lo + Z.of_nat (S n))%Z with (lo + Z.of_nat n + 1)%Z by lia.
    rewrite range_snoc by lia. rewrite fold_left_app. simpl.
    set (h := (lo + Z.of_nat n)%Z) in *.
    set (t := fold_left (fun t j => partnerStep t (at_ lines j)) (range lo h) t0)
      in *.
    destruct (skipped (TrimSpace (at_ lines h))) eqn:Hs.
    + (* line h is skipped *)
      rewrite partnerStep_skipped by assumption.
      destruct IH as [[Hnone Hname]|[j [Hj [Hc [Hn [Hmax Htie]]]]]].
      * left. split; [|assumption]. intros k Hk. apply in_app_or in Hk.
        destruct Hk as [Hk|[<-|[]]]; [now apply Hnone|].
        unfold candidate. now rewrite Hs.
      * right. exists j. split; [apply in_or_app; now left|].
        split; [assumption|]. split; [assumption|]. split.
        -- intros k Hk Hck. apply in_app_or in Hk.
           destruct Hk as [Hk|[<-|[]]]; [now apply Hmax|].
           unfold candidate in Hck. rewrite Hs in Hck. discriminate.
        -- intros k Hk Hck. apply in_app_or in Hk.
           destruct Hk as [Hk|[<-|[]]]; [now apply Htie|].
           unfold candidate in Hck. rewrite Hs in Hck. discriminate.
    + (* line h is a candidate *)
      rewrite partnerStep_candidate by assumption.
      assert (Hch : candidate lines h = true)
        by (unfold candidate; now rewrite Hs).
      right.
      destruct IH as [[Hnone Hname]|[j [Hj [Hc [Hn [Hmax Htie]]]]]].
      * rewrite Hname. simpl. exists h.
        split; [apply in_or_app; right; now left|].
        split; [assumption|]. split; [reflexivity|]. split.
        -- intros k Hk Hck. apply in_app_or in Hk.
           destruct Hk as [Hk|[<-|[]]]; [|lia].
           rewrite (Hnone k Hk) in Hck. discriminate.
        -- intros k Hk Hck. apply in_app_or in Hk.
           destruct Hk as [Hk|[<-|[]]]; [|lia].
           rewrite (Hnone k Hk) in Hck. discriminate.
      * assert (Hne : isEmpty (PartnerName t) = false).
        { rewrite Hn. apply len_nonempty. apply skipped_false_len.
          unfold candidate in Hc. now apply negb_true_iff in Hc. }
        rewrite Hne. simpl. rewrite Hn.
        assert (Hjh : (j < h)%Z) by (apply In_range in Hj; lia).
        destruct (Z.gtb_spec (len (TrimSpace (at_ lines h)))
                    (len (TrimSpace (at_ lines j)))) as [Hgt|Hle].
        -- simpl. exists h. split; [apply in_or_app; right; now left|].
           split; [assumption|]. split; [reflexivity|]. split.
           ++ intros k Hk Hck. apply in_app_or in Hk.
              destruct Hk as [Hk|[<-|[]]]; [|lia].
              specialize (Hmax k Hk Hck). lia.
           ++ intros k Hk Hck Heq. apply in_app_or in Hk.
              destruct Hk as [Hk|[<-|[]]]; [|lia].
              specialize (Hmax k Hk Hck). lia.
        -- simpl. exists j. split; [apply in_or_app; now left|].
           split; [assumption|]. split; [assumption|]. split.
           ++ intros k Hk Hck. apply in_app_or in Hk.
              destruct Hk as [Hk|[<-|[]]]; [now apply Hmax|lia].
           ++ intros k Hk Hck Heq. apply in_app_or in Hk.
              destruct Hk as [Hk|[<-|[]]]; [now apply Htie|lia].
Qed.

Lemma blockAt_partner lines i :
  ((forall k, In k (partnerWindow i) -> candidate lines k = false)
   /\ PartnerName (blockAt lines i) = [])
  \/ longestFirst lines (partnerWindow i) (PartnerName (blockAt lines i)).
Proof.
  unfold blockAt, resolvePartner, partnerWindow. fold (datesAt lines i).
  rewrite range_count. apply partner_scan. apply blockAt_fields.
Qed.

Lemma partnerStep_trimmed t raw :
  TrimSpace (PartnerName t) = PartnerName t ->
  TrimSpace (PartnerName (partnerStep t raw)) = PartnerName (partnerStep t raw).
Proof.
  intros H. unfold partnerStep.
  destruct (skipped (TrimSpace raw)); [assumption|].
  destruct (len (TrimSpace raw) >? 2)%Z; [|assumption].
  destruct (isEmpty (PartnerName t) || (len (TrimSpace raw) >? len (PartnerName t))%Z);
    [|assumption].
  simpl. apply TrimSpace_idempotent.
Qed.

Lemma blockAt_partner_trimmed lines i :
  TrimSpace (PartnerName (blockAt lines i)) = PartnerName (blockAt lines i).
Proof.
  unfold blockAt, resolvePartner. fold (datesAt lines i).
  apply (fold_invariant (fun t j => partnerStep t (at_ lines j))
           (fun x => TrimSpace (PartnerName x) = PartnerName x)).
  - intros a j _. apply partnerStep_trimmed.
  - destruct (blockAt_fields lines i) as [_ [_ [_ ->]]]. reflexivity.
Qed.

(** *** The acceptance filter *)

Lemma isRealTransaction_inv lower t :
  isRealTransaction lower t = true ->
  MatchString pageNumberPattern (TrimSpace (PartnerName t)) = false
  /\ (3 <= len (TrimSpace (PartnerName t)))%Z.
Proof.
  unfold isRealTransaction.
  destruct (isEmpty (TrimSpace (PartnerName t))); [discriminate|].
  destruct (MatchString pageNumberPattern (TrimSpace (PartnerName t)));
    [discriminate|].
  destruct (existsb _ skipPatterns); [discriminate|].
  destruct (Z.ltb_spec (len (TrimSpace (PartnerName t))) 3); [discriminate|].
  auto.
Qed.

Lemma pageNumber_trimmed s : isPageNumber s -> TrimSpace s = s.
Proof.
  intros [n [ws1 [ws2 [m [-> [[Hn Hnd] [_ [_ [Hm Hmd]]]]]]]]].
  apply TrimSpace_id.
  - destruct n as [|a n]; [congruence|]. simpl in Hnd.
    apply andb_true_iff in Hnd. destruct Hnd as [Ha _].
    simpl. apply plain_starts. now apply digit_plain.
  - destruct m as [|b m] using rev_ind; [congruence|].
    rewrite forallb_app in Hmd. apply andb_true_iff in Hmd.
    destruct Hmd as [_ Hb]. simpl in Hb. rewrite andb_true_r in Hb.
    rewrite !app_assoc, rev_app_distr. simpl.
    apply plain_ends. now apply digit_plain.
Qed.

Lemma pageNumber_not_real lower t :
  isPageNumber (PartnerName t) -> isRealTransaction lower t = false.
Proof.
  intros H. unfold isRealTransaction.
  rewrite (pageNumber_trimmed H), (pageNumber_match_intro H).
  now destruct (isEmpty (PartnerName t)).
Qed.

(** ** Lemmas: the balance loop *)

Lemma balanceStep_answers lines i :
  balanceStep lines i
  = if answers lines i then Some (balanceOfNext lines i) else None.
Proof.
  unfold balanceStep, answers, hasBalanceMarker, balanceMarkers, balanceAfter,
    balanceOfNext.
  cbn [existsb].
  destruct (Contains (TrimSpace (at_ lines i)) (lit "Tu nuevo saldo"));
    destruct (Contains (TrimSpace (at_ lines i)) (lit "tu nuevo saldo"));
    destruct (Contains (TrimSpace (at_ lines i)) (lit "Your new balance"));
    destruct (Contains (TrimSpace (at_ lines i)) (lit "your new balance"));
    destruct (i + 1 <? Z.of_nat (length lines))%Z;
    destruct (0 <? length (FindAllString balancePattern
                             (TrimSpace (at_ lines (i + 1)))))%nat;
    reflexivity.
Qed.

Lemma balanceLoop_skip lines l1 l2 :
  (forall k, In k l1 -> balanceStep lines k = None) ->
  balanceLoop lines (l1 ++ l2) = balanceLoop lines l2.
Proof.
  induction l1 as [|k l1 IH]; intros H; simpl; [reflexivity|].
  rewrite (H k) by now left. apply IH. intros k' Hk'. apply H. now right.
Qed.

Lemma first_true (P : Z -> bool) (n : nat) :
  (forall k, (0 <= k < Z.of_nat n)%Z -> P k = false)
  \/ exists i0, (0 <= i0 < Z.of_nat n)%Z /\ P i0 = true
                /\ forall k, (0 <= k < i0)%Z -> P k = false.
Proof.
  induction n as [|n [IH|IH]].
  - left. intros k Hk. lia.
  - destruct (P (Z.of_nat n)) eqn:Hn.
    + right. exists (Z.of_nat n). split; [lia|]. split; [assumption|].
      intros k Hk. apply IH. lia.
    + left. intros k Hk.
      destruct (Z.eq_dec k (Z.of_nat n)) as [->|Hne]; [assumption|].
      apply IH. lia.
  - right. destruct IH as [i0 [Hi [Hp Hk]]]. exists i0.
    split; [lia|]. split; assumption.
Qed.

(** ** The claims *)

(** C1, as stated: on scenario A the parser does not return the record of
    the specification; it returns no record at all, because the partner
    window stops two lines above the amount. *)
Lemma scenarioA_yields_nothing :
  parseTransactionsFromText lowerBytes scenarioA = Ok []
  /\ parseTransactionsFromText lowerBytes scenarioA <> Ok [supermarket].
Proof. split; [vm_compute; reflexivity|vm_compute; discriminate]. Qed.

(** C1, amended: scenario A yields the empty sequence; with the partner line
    above the value-date line, the same four lines yield exactly the record
    of the specification. *)
Theorem statement_block_parsed (lower : str -> str) :
  lower (lit "Descripción") = lit "descripción" ->
  parseTransactionsFromText lower scenarioA = Ok []
  /\ parseTransactionsFromText lower statementBlock = Ok [supermarket].
Proof.
  intros H. vm_compute in H. split; [vm_compute; reflexivity|].
  vm_compute. rewrite H. vm_compute. reflexivity.
Qed.

Lemma statement_block_parsed_witness :
  parseTransactionsFromText lowerBytes scenarioA = Ok []
  /\ parseTransactionsFromText lowerBytes statementBlock = Ok [supermarket].
Proof. apply (@statement_block_parsed lowerBytes). vm_compute. reflexivity. Defined.

(** C2: on scenario C the amount pattern finds ["1.23"] and ["4,56€"] on the
    line after the marker, and the balance returned is ["4,56"], not
    ["1.234,56"]. *)
Theorem scenarioC_balance :
  FindAllString balancePattern (lit "Ref 12 1.234,56€")
    = [lit "1.23"; lit "4,56€"]
  /\ parseBalanceFromText scenarioC = Ok (mkAccountBalance (lit "4,56"))
  /\ parseBalanceFromText scenarioC <> Ok (mkAccountBalance (lit "1.234,56")).
Proof.
  split; [vm_compute; reflexivity|].
  split; [vm_compute; reflexivity|vm_compute; discriminate].
Qed.

(** C3, as stated: an upper-case marker followed by an amount line is not
    found. *)
Lemma upper_case_marker_not_found :
  let lines := SplitLines upperMarker in
  hasBalanceMarkerAnyCase (TrimSpace (at_ lines 0)) = true
  /\ FindAllString balancePattern (TrimSpace (at_ lines 1)) = [lit "100,00€"]
  /\ parseBalanceFromText upperMarker = Err "balance not found in PDF".
Proof. repeat split; vm_compute; reflexivity. Qed.

(** C3, amended: when a line contains one of the four spellings
    "Tu nuevo saldo", "tu nuevo saldo", "Your new balance",
    "your new balance" and the next line holds an amount match, the balance
    is found: it is the last amount match, stripped, of the line after the
    first such marker line. *)
Theorem balance_found_after_marker (text : str) (i : Z) :
  let lines := SplitLines text in
  (0 <= i)%Z ->
  (i + 1 < Z.of_nat (length lines))%Z ->
  hasBalanceMarker (TrimSpace (at_ lines i)) = true ->
  FindAllString balancePattern (TrimSpace (at_ lines (i + 1))) <> [] ->
  exists i0,
    (0 <= i0 <= i)%Z
    /\ answers lines i0 = true
    /\ (forall k, (0 <= k < i0)%Z -> answers lines k = false)
    /\ parseBalanceFromText text = Ok (balanceOfNext lines i0).
Proof.
  intros lines Hi Hnext Hmark Hfind.
  assert (Ha : answers lines i = true).
  { unfold answers. rewrite Hmark. simpl.
    apply andb_true_iff. split; [apply Z.ltb_lt; assumption|].
    apply Nat.ltb_lt.
    destruct (FindAllString balancePattern (TrimSpace (at_ lines (i + 1))));
      [congruence|simpl; lia]. }
  destruct (first_true (answers lines) (length lines))
    as [Hnone|[i0 [Hi0 [Hans Hfirst]]]].
  { rewrite Hnone in Ha by lia. discriminate. }
  exists i0.
  assert (i0 <= i)%Z.
  { destruct (Z.le_gt_cases i0 i) as [|Hgt]; [assumption|].
    rewrite Hfirst in Ha by lia. discriminate. }
  split; [lia|]. split; [assumption|]. split; [assumption|].
  unfold parseBalanceFromText. fold lines.
  rewrite (@range_cut 0 (Z.of_nat (length lines)) i0) by lia.
  rewrite balanceLoop_skip.
  - simpl. rewrite balanceStep_answers, Hans. reflexivity.
  - intros k Hk. apply In_range in Hk.
    rewrite balanceStep_answers, Hfirst by lia. reflexivity.
Qed.

Lemma balance_found_after_marker_witness :
  exists i0,
    (0 <= i0 <= 0)%Z
    /\ answers (SplitLines scenarioC) i0 = true
    /\ (forall k, (0 <= k < i0)%Z -> answers (SplitLines scenarioC) k = false)
    /\ parseBalanceFromText scenarioC = Ok (balanceOfNext (SplitLines scenarioC) i0).
Proof.
  apply (@balance_found_after_marker scenarioC 0).
  - lia.
  - vm_compute. reflexivity.
  - vm_compute. reflexivity.
  - vm_compute. discriminate.
Defined.

Lemma specAmountLine_end s :
  specAmountLine s ->
  (exists d r, rev s = d :: r /\ digit d = true)
  \/ (exists d r, rev s = rev euro ++ d :: r /\ digit d = true).
Proof.
  intros [amount [cur [-> [Ha Hcur]]]].
  destruct (decimal_ends Ha) as [_ [d [r [Hr Hd]]]].
  destruct Hcur as [->| ->].
  - left. rewrite app_nil_r. eauto.
  - right. rewrite rev_app_distr, Hr. eauto.
Qed.

(** C4, as stated: a line with white space between the amount and the
    currency symbol is not "sign, digits, comma, two digits, currency
    symbol", and a record is emitted for it. *)
Lemma spaced_amount_line_emitted :
  ~ specAmountLine (TrimSpace (at_ spacedAmount 3))
  /\ transactionAt lowerBytes spacedAmount 3 = Some supermarket
  /\ parseTransactionsFromText lowerBytes
       (lit "SUPERMARKET XYZ
Fecha de valor 05.10.2025
05.10.2025
-12,34 €") = Ok [supermarket].
Proof.
  split; [|split; vm_compute; reflexivity].
  intros H. apply specAmountLine_end in H.
  destruct H as [[d [r [Hr Hd]]]|[d [r [Hr Hd]]]];
    vm_compute in Hr; inversion Hr; subst; discriminate Hd.
Qed.

(** C4, amended: a line whose trimmed content is not an optional sign,
    digits, a comma, two digits, optional white space and an optional
    currency symbol, and nothing else, emits no record. *)
Theorem no_record_without_amount_line (lower : str -> str) (lines : list str) (i : Z) :
  ~ amountLineText (TrimSpace (at_ lines i)) ->
  transactionAt lower lines i = None.
Proof.
  intros H. apply transactionAt_no_match.
  destruct (MatchString amountLinePattern (TrimSpace (at_ lines i))) eqn:Hm;
    [|reflexivity].
  exfalso. apply H.
  destruct (@amountLine_trimmed _ Hm) as [amount [ws [cur [Hs [Ha [Hws [Hcur _]]]]]]].
  exists amount, ws, cur. auto.
Qed.

Lemma no_record_without_amount_line_witness :
  transactionAt lowerBytes periodAmount 3 = None.
Proof.
  apply (@no_record_without_amount_line lowerBytes periodAmount 3).
  intros H. apply amountLine_match_intro in H. vm_compute in H. discriminate H.
Defined.

(** C5: a record emitted for a block without a "Fecha de valor" line in its
    date window has its value date equal to its booking date; the booking
    date is the first date of the first line of the window that can supply
    one; and a booking date that is set survives every later step of the
    scan. *)
Theorem value_date_defaults_to_booking
    (lower : str -> str) (lines : list str) (i : Z) (tx : Transaction) :
  transactionAt lower lines i = Some tx ->
  ((forall j, In j (dateWindow i) -> hasValueDateMarker lines j = false) ->
   ValueDate tx = BookingDate tx)
  /\ (forall j d,
        In j (dateWindow i) -> bookingLine lines j d ->
        (forall k d', In k (dateWindow i) -> (k < j)%Z -> ~ bookingLine lines k d') ->
        BookingDate tx = d)
  /\ (forall t raw,
        isEmpty (BookingDate t) = false ->
        BookingDate (dateStep t raw) = BookingDate t).
Proof.
  intros H. apply transactionAt_inv in H. destruct H as [_ [Hb [_ ->]]].
  destruct (blockAt_fields lines i) as [Eb [Ev _]].
  assert (Hbk : forall v,
             BookingDate (if isEmpty (ValueDate (blockAt lines i))
                          then setValueDate (blockAt lines i) v
                          else blockAt lines i)
             = BookingDate (datesAt lines i)).
  { intros v. destruct (isEmpty (ValueDate (blockAt lines i))); simpl; exact Eb. }
  split; [|split].
  - intros Hno. destruct (isEmpty (ValueDate (blockAt lines i))); simpl;
      [reflexivity|].
    rewrite Eb, Ev. now apply dates_agree_without_marker.
  - intros j d Hj Hline Hfirst. rewrite Hbk.
    eapply booking_first_wins; eassumption.
  - intros t raw. apply dateStep_booking_kept.
Qed.

Lemma value_date_defaults_to_booking_witness :
  ((forall j, In j (dateWindow 3) -> hasValueDateMarker noValueDate j = false) ->
   ValueDate supermarket = BookingDate supermarket)
  /\ (forall j d,
        In j (dateWindow 3) -> bookingLine noValueDate j d ->
        (forall k d', In k (dateWindow 3) -> (k < j)%Z ->
                      ~ bookingLine noValueDate k d') ->
        BookingDate supermarket = d)
  /\ (forall t raw,
        isEmpty (BookingDate t) = false ->
        BookingDate (dateStep t raw) = BookingDate t).
Proof.
  apply (@value_date_defaults_to_booking lowerBytes noValueDate 3 supermarket).
  vm_compute. reflexivity.
Defined.

(** C6: when the partner window of line [i] holds a candidate line, the
    partner name of the block is the longest candidate line of the window,
    and among the candidates of that length the one with the lowest index. *)
Theorem partner_is_longest_first (lines : list str) (i j0 : Z) :
  In j0 (partnerWindow i) ->
  candidate lines j0 = true ->
  longestFirst lines (partnerWindow i) (PartnerName (blockAt lines i))
  /\ (forall lower tx,
        transactionAt lower lines i = Some tx ->
        PartnerName tx = PartnerName (blockAt lines i)).
Proof.
  intros Hj Hc. split.
  - destruct (blockAt_partner lines i) as [[Hnone _]|H]; [|assumption].
    rewrite (Hnone j0 Hj) in Hc. discriminate.
  - intros lower tx H. apply transactionAt_inv in H.
    destruct H as [_ [_ [_ ->]]].
    now destruct (isEmpty (ValueDate (blockAt lines i))).
Qed.

Lemma partner_is_longest_first_witness :
  (longestFirst twoPartners (partnerWindow 4) (PartnerName (blockAt twoPartners 4))
   /\ (forall lower tx,
         transactionAt lower twoPartners 4 = Some tx ->
         PartnerName tx = PartnerName (blockAt twoPartners 4)))
  /\ PartnerName (blockAt twoPartners 4) = lit "ALPHA SHOP".
Proof.
  split.
  - apply (@partner_is_longest_first twoPartners 4 1).
    + vm_compute. right. left. reflexivity.
    + vm_compute. reflexivity.
  - vm_compute. reflexivity.
Defined.

(** C7: a block whose partner name is a page number (digits, slash,
    digits) emits no record, whatever its dates and amount. *)
Theorem page_number_block_rejected (lower : str -> str) (lines : list str) (i : Z) :
  isPageNumber (PartnerName (blockAt lines i)) ->
  transactionAt lower lines i = None.
Proof.
  intros H. apply transactionAt_not_real. now apply pageNumber_not_real.
Qed.

Lemma page_number_block_rejected_witness :
  PartnerName (blockAt pageNumberBlock 3) = lit "1 / 3"
  /\ BookingDate (blockAt pageNumberBlock 3) = lit "05.10.2025"
  /\ Amount (blockAt pageNumberBlock 3) = lit "-12,34"
  /\ transactionAt lowerBytes pageNumberBlock 3 = None.
Proof.
  split; [vm_compute; reflexivity|].
  split; [vm_compute; reflexivity|].
  split; [vm_compute; reflexivity|].
  apply (@page_number_block_rejected lowerBytes pageNumberBlock 3).
  exists (lit "1"), (lit " "), (lit " "), (lit "3").
  split; [vm_compute; reflexivity|].
  repeat split; try reflexivity; discriminate.
Defined.

(** C8: [parseTransactionsFromText] returns a sequence and no error for
    every text, the empty sequence when no line emits a record and in
    particular on the empty text; [parseBalanceFromText] fails on the empty
    text. *)
Theorem transactions_never_fail (lower : str -> str) (text : str) :
  (exists txs, parseTransactionsFromText lower text = Ok txs)
  /\ ((forall i, transactionAt lower (SplitLines text) i = None) ->
      parseTransactionsFromText lower text = Ok [])
  /\ parseTransactionsFromText lower [] = Ok []
  /\ parseBalanceFromText [] = Err "balance not found in PDF".
Proof.
  split; [eexists; reflexivity|]. split; [|split; reflexivity].
  intros H. unfold parseTransactionsFromText. f_equal.
  rewrite appendAt_fold. simpl.
  induction (range 0 (Z.of_nat (length (SplitLines text)))) as [|i l IH];
    simpl; [reflexivity|].
  now rewrite H, IH.
Qed.

(** C9: every record returned has an amount of the form sign, digits, comma,
    two digits (hence no currency symbol and no white space around it), a
    booking date DD.MM.YYYY, a partner name that is trimmed and at least
    three bytes long, and a value date that is not empty. *)
Theorem record_invariant
    (lower : str -> str) (text : str) (txs : list Transaction) (tx : Transaction) :
  parseTransactionsFromText lower text = Ok txs ->
  In tx txs ->
  isSignedCommaDecimal (Amount tx)
  /\ isDateText (BookingDate tx) = true
  /\ TrimSpace (PartnerName tx) = PartnerName tx
  /\ (3 <= len (PartnerName tx))%Z
  /\ PartnerName tx <> []
  /\ ValueDate tx <> [].
Proof.
  intros Hp Hin. destruct (@parse_In lower text txs tx Hp Hin) as [i [_ Hi]].
  apply transactionAt_inv in Hi. destruct Hi as [Hm [Hb [Hreal Htx]]].
  set (b := blockAt (SplitLines text) i) in *.
  destruct (blockAt_fields (SplitLines text) i) as [Eb [Ev [Ea _]]].
  fold b in Eb, Ev, Ea.
  destruct (datesAt_dated (SplitLines text) i) as [Hdb Hdv].
  rewrite <- Eb in Hdb. rewrite <- Ev in Hdv.
  destruct Hdb as [Hdb|Hdb]; [congruence|].
  pose proof (blockAt_partner_trimmed (SplitLines text) i) as Ht. fold b in Ht.
  apply isRealTransaction_inv in Hreal. destruct Hreal as [_ Hlen].
  rewrite Ht in Hlen.
  destruct (@amountLine_trimmed _ Hm) as [amount [_ [_ [_ [Ha [_ [_ Hs]]]]]]].
  assert (Hfields : Amount tx = Amount b /\ BookingDate tx = BookingDate b
                    /\ PartnerName tx = PartnerName b
                    /\ (ValueDate tx = ValueDate b /\ isEmpty (ValueDate b) = false
                        \/ ValueDate tx = BookingDate b)).
  { rewrite Htx. destruct (isEmpty (ValueDate b)) eqn:E; simpl; auto 6. }
  destruct Hfields as [E1 [E2 [E3 E4]]]. rewrite E1, E2, E3, Ea, Hs.
  split; [assumption|]. split; [assumption|]. split; [assumption|].
  split; [assumption|]. split.
  - intros E. rewrite E in Hlen. unfold len in Hlen. simpl in Hlen. lia.
  - destruct E4 as [[-> E]| ->]; intros E'; rewrite E' in *; discriminate.
Qed.

Lemma record_invariant_witness :
  isSignedCommaDecimal (Amount supermarket)
  /\ isDateText (BookingDate supermarket) = true
  /\ TrimSpace (PartnerName supermarket) = PartnerName supermarket
  /\ (3 <= len (PartnerName supermarket))%Z
  /\ PartnerName supermarket <> []
  /\ ValueDate supermarket <> [].
Proof.
  apply (@record_invariant lowerBytes statementBlock [supermarket] supermarket).
  - vm_compute. reflexivity.
  - left. reflexivity.
Defined.

(** C10: the value date of an emitted record is the first date of the last
    line of the date window that contains "Fecha de valor" and a date; the
    booking date is the first date of the first line that can supply one. *)
Theorem value_date_last_wins
    (lower : str -> str) (lines : list str) (i j : Z) (d : str) (tx : Transaction) :
  transactionAt lower lines i = Some tx ->
  In j (dateWindow i) ->
  valueLine lines j d ->
  (forall k d', In k (dateWindow i) -> (j < k)%Z -> ~ valueLine lines k d') ->
  ValueDate tx = d
  /\ (forall j' d',
        In j' (dateWindow i) -> bookingLine lines j' d' ->
        (forall k d'', In k (dateWindow i) -> (k < j')%Z ->
                       ~ bookingLine lines k d'') ->
        BookingDate tx = d').
Proof.
  intros H Hj Hline Hlast. apply transactionAt_inv in H.
  destruct H as [_ [_ [_ ->]]].
  destruct (blockAt_fields lines i) as [Eb [Ev _]].
  pose proof (@value_last_wins lines i j d Hj Hline Hlast) as Hv.
  assert (Hd : isEmpty d = false).
  { destruct Hline as [_ [rest Hf]]. apply isDateText_nonempty.
    apply (@FindAllString_date_shape (TrimSpace (at_ lines j))).
    rewrite Hf. now left. }
  rewrite Ev, Hv, Hd. split; [congruence|].
  intros j' d' Hj' Hb Hfirst. rewrite Eb.
  eapply booking_first_wins; eassumption.
Qed.

Lemma value_date_last_wins_witness :
  ValueDate (record "05.10.2025" "02.10.2025" "SUPERMARKET XYZ" "-12,34")
    = lit "02.10.2025"
  /\ (forall j' d',
        In j' (dateWindow 4) -> bookingLine twoValueDates j' d' ->
        (forall k d'', In k (dateWindow 4) -> (k < j')%Z ->
                       ~ bookingLine twoValueDates k d'') ->
        BookingDate (record "05.10.2025" "02.10.2025" "SUPERMARKET XYZ" "-12,34")
          = d').
Proof.
  apply (@value_date_last_wins lowerBytes twoValueDates 4 2).
  - vm_compute. reflexivity.
  - vm_compute. right. right. left. reflexivity.
  - split; [vm_compute; reflexivity|]. eexists. vm_compute. reflexivity.
  - intros k d' Hk Hlt [Hm _]. apply In_range in Hk.
    assert (k = 3%Z) by (rewrite max_spec in Hk; lia). subst k.
    vm_compute in Hm. discriminate Hm.
Defined.

(** ** Further properties: text extraction *)

Lemma SplitLines_nonempty s : SplitLines s <> [].
Proof.
  destruct s as [|c s]; simpl; [discriminate|].
  destruct (Ascii.eqb c "010"); [discriminate|].
  destruct (SplitLines s); discriminate.
Qed.

(** A newline joins the lines of what is before it and of what is after. *)
Lemma SplitLines_app_newline a b :
  SplitLines (a ++ lit "
" ++ b) = SplitLines a ++ SplitLines b.
Proof.
  induction a as [|c a IH]; [reflexivity|].
  change ((c :: a) ++ lit "
" ++ b) with (c :: (a ++ lit "
" ++ b)).
  cbn [SplitLines]. rewrite IH.
  destruct (Ascii.eqb c "010"); [reflexivity|].
  destruct (SplitLines a) as [|l ls] eqn:E;
    [now apply SplitLines_nonempty in E|reflexivity].
Qed.

Lemma joinLines_cons t r rest :
  joinLines (t :: r :: rest) = t ++ lit "
" ++ joinLines (r :: rest).
Proof. reflexivity. Qed.

Lemma joinLines_snoc texts page :
  texts <> [] ->
  joinLines (texts ++ [page]) = joinLines texts ++ lit "
" ++ page.
Proof.
  induction texts as [|t texts IH]; [congruence|]. intros _.
  destruct texts as [|r texts]; [reflexivity|].
  change ((t :: r :: texts) ++ [page]) with (t :: r :: (texts ++ [page])).
  rewrite !joinLines_cons.
  change (r :: texts ++ [page]) with ((r :: texts) ++ [page]).
  rewrite IH by discriminate. now rewrite <- !app_assoc.
Qed.

Lemma SplitLines_joinLines texts :
  texts <> [] -> SplitLines (joinLines texts) = flat_map SplitLines texts.
Proof.
  induction texts as [|t texts IH]; [congruence|]. intros _.
  destruct texts as [|r texts]; [simpl; now rewrite app_nil_r|].
  rewrite joinLines_cons, SplitLines_app_newline, IH by discriminate.
  reflexivity.
Qed.

Lemma extractFrom_ok texts : forall i n acc,
  (i + Z.of_nat (length texts) = n)%Z ->
  extractFrom (map Ok texts) i n acc = Ok (acc ++ joinLines texts).
Proof.
  induction texts as [|t texts IH]; intros i n acc Hn.
  - simpl. now rewrite app_nil_r.
  - cbn [map extractFrom]. destruct texts as [|r texts].
    + replace (i <? n - 1)%Z with false
        by (symmetry; apply Z.ltb_ge; simpl in Hn; lia).
      reflexivity.
    + replace (i <? n - 1)%Z with true
        by (symmetry; apply Z.ltb_lt; simpl length in Hn; lia).
      rewrite IH by (simpl length in *; lia).
      rewrite joinLines_cons. now rewrite <- !app_assoc.
Qed.

Lemma extractFrom_failure texts err rest : forall i n acc,
  extractFrom (map Ok texts ++ Err err :: rest) i n acc
  = Err ("failed to extract text from page "
         ++ formatInt (i + Z.of_nat (length texts) + 1) ++ ": " ++ err)%string.
Proof.
  induction texts as [|t texts IH]; intros i n acc.
  - simpl. now rewrite Z.add_0_r.
  - cbn [map app extractFrom]. rewrite IH. cbn [length].
    rewrite Nat2Z.inj_succ.
    replace (i + Z.succ (Z.of_nat (length texts)) + 1)%Z
      with (i + 1 + Z.of_nat (length texts) + 1)%Z by lia.
    reflexivity.
Qed.

Lemma ExtractText_ok texts : ExtractText (map Ok texts) = Ok (joinLines texts).
Proof.
  unfold ExtractText. rewrite extractFrom_ok by (rewrite length_map; lia).
  reflexivity.
Qed.

(** X1: when every page yields its text, [ExtractText] returns the page
    texts joined by single newlines, so that the lines the parser sees are
    the lines of the pages, in page order. *)
Theorem extracted_lines_are_page_lines (texts : list str) :
  ExtractText (map Ok texts) = Ok (joinLines texts)
  /\ (texts <> [] ->
      SplitLines (joinLines texts) = flat_map SplitLines texts).
Proof.
  split; [apply ExtractText_ok|apply SplitLines_joinLines].
Qed.

(** X2: when page [k+1] is the first whose text cannot be extracted,
    [ExtractText] returns the error that names page [k+1] and wraps the
    cause, whatever the later pages hold, and no text; [ParseTransactions]
    and [ParseBalance] return that error. *)
Theorem extraction_fails_at_first_bad_page
    (lower : str -> str) (texts : list str) (err : string) (rest : Document) :
  let doc := map Ok texts ++ Err err :: rest in
  let failure :=
    ("failed to extract text from page "
     ++ formatInt (Z.of_nat (length texts) + 1) ++ ": " ++ err)%string in
  ExtractText doc = Err failure
  /\ ParseTransactions lower doc = Err failure
  /\ ParseBalance doc = Err failure.
Proof.
  intros doc failure.
  assert (H : ExtractText doc = Err failure).
  { unfold ExtractText, doc. rewrite extractFrom_failure. reflexivity. }
  unfold ParseTransactions, ParseBalance. rewrite H. auto.
Qed.

(** ** Further properties: nothing below a line matters to it *)

Lemma at_app lines more j :
  (0 <= j < Z.of_nat (length lines))%Z -> at_ (lines ++ more) j = at_ lines j.
Proof. intros H. unfold at_. apply app_nth1. lia. Qed.

Lemma fold_left_ext_in (A B : Type) (f g : A -> B -> A) (l : list B) :
  (forall a b, In b l -> f a b = g a b) ->
  forall a, fold_left f l a = fold_left g l a.
Proof.
  induction l as [|b l IH]; intros H a; simpl; [reflexivity|].
  rewrite (H a b) by now left. apply IH. intros a' b' Hb'. apply H. now right.
Qed.

Lemma flat_map_eq_in (A B : Type) (f g : A -> list B) (l : list A) :
  (forall a, In a l -> f a = g a) -> flat_map f l = flat_map g l.
Proof.
  induction l as [|a l IH]; intros H; simpl; [reflexivity|].
  rewrite (H a) by now left. f_equal. apply IH. intros b Hb. apply H. now right.
Qed.

Lemma blockAt_app lines more i :
  (0 <= i < Z.of_nat (length lines))%Z ->
  blockAt (lines ++ more) i = blockAt lines i.
Proof.
  intros Hi. unfold blockAt, resolvePartner, resolveDates.
  rewrite at_app by assumption.
  rewrite (@fold_left_ext_in _ _
             (fun t j => partnerStep t (at_ (lines ++ more) j))
             (fun t j => partnerStep t (at_ lines j))).
  - f_equal. apply fold_left_ext_in. intros a j Hj. apply In_range in Hj.
    rewrite max_spec in Hj. rewrite at_app by lia. reflexivity.
  - intros a j Hj. apply In_range in Hj. rewrite max_spec in Hj.
    rewrite at_app by lia. reflexivity.
Qed.

Lemma transactionAt_app lower lines more i :
  (0 <= i < Z.of_nat (length lines))%Z ->
  transactionAt lower (lines ++ more) i = transactionAt lower lines i.
Proof.
  intros Hi. unfold transactionAt. fold (blockAt (lines ++ more) i).
  fold (blockAt lines i). rewrite blockAt_app, at_app by assumption.
  reflexivity.
Qed.

Lemma records_app lower lines more :
  exists later,
    fold_left (appendAt lower (lines ++ more))
      (range 0 (Z.of_nat (length (lines ++ more)))) []
    = fold_left (appendAt lower lines) (range 0 (Z.of_nat (length lines))) []
      ++ later.
Proof.
  rewrite length_app, Nat2Z.inj_add.
  rewrite (@range_split 0 (Z.of_nat (length lines))) by lia.
  rewrite !appendAt_fold. simpl. rewrite flat_map_app. eexists. f_equal.
  apply flat_map_eq_in. intros i Hi. apply In_range in Hi.
  now rewrite transactionAt_app by lia.
Qed.

Lemma records_after_newline lower text more :
  exists txs later,
    parseTransactionsFromText lower text = Ok txs
    /\ parseTransactionsFromText lower (text ++ lit "
" ++ more) = Ok (txs ++ later).
Proof.
  unfold parseTransactionsFromText. rewrite SplitLines_app_newline.
  destruct (records_app lower (SplitLines text) (SplitLines more)) as [later H].
  eexists. exists later. split; [reflexivity|]. now rewrite H.
Qed.

(** X3: text added after a newline below a statement text never changes or
    removes the records found in it; the records of the longer text begin
    with those of the shorter one. *)
Theorem later_text_keeps_records (lower : str -> str) (text more : str) :
  exists txs later,
    parseTransactionsFromText lower text = Ok txs
    /\ parseTransactionsFromText lower (text ++ lit "
" ++ more) = Ok (txs ++ later).
Proof. apply records_after_newline. Qed.

(** X4: a page added at the end of a document whose pages all yield text
    never changes or removes the records of the pages before it. *)
Theorem added_page_keeps_records
    (lower : str -> str) (texts : list str) (page : str) :
  exists txs later,
    ParseTransactions lower (map Ok texts) = Ok txs
    /\ ParseTransactions lower (map Ok (texts ++ [page])) = Ok (txs ++ later).
Proof.
  unfold ParseTransactions. rewrite !ExtractText_ok.
  destruct texts as [|t texts].
  - simpl. destruct (parseTransactionsFromText lower page) as [txs|] eqn:E.
    + exists [], txs. split; reflexivity.
    + discriminate E.
  - rewrite joinLines_snoc by discriminate. apply records_after_newline.
Qed.

(** ** Further properties: the balance *)

Lemma balanceLoop_none lines n :
  (forall i, (0 <= i < n)%Z -> answers lines i = false) ->
  balanceLoop lines (range 0 n) = None.
Proof.
  intros H. rewrite <- (app_nil_r (range 0 n)). rewrite balanceLoop_skip;
    [reflexivity|].
  intros k Hk. apply In_range in Hk.
  rewrite balanceStep_answers, H by lia. reflexivity.
Qed.

Lemma balanceLoop_first lines n i0 :
  (0 <= i0 < n)%Z ->
  answers lines i0 = true ->
  (forall k, (0 <= k < i0)%Z -> answers lines k = false) ->
  balanceLoop lines (range 0 n) = Some (balanceOfNext lines i0).
Proof.
  intros Hi Ha Hfirst. rewrite (@range_cut 0 n i0) by lia.
  rewrite balanceLoop_skip.
  - simpl. now rewrite balanceStep_answers, Ha.
  - intros k Hk. apply In_range in Hk.
    rewrite balanceStep_answers, Hfirst by lia. reflexivity.
Qed.

Lemma balance_outcome (text : str) :
  let lines := SplitLines text in
  (parseBalanceFromText text = Err "balance not found in PDF"
   <-> forall i, (0 <= i < Z.of_nat (length lines))%Z -> answers lines i = false)
  /\ (forall b,
        parseBalanceFromText text = Ok b ->
        exists i0,
          (0 <= i0 < Z.of_nat (length lines))%Z
          /\ answers lines i0 = true
          /\ (forall k, (0 <= k < i0)%Z -> answers lines k = false)
          /\ b = balanceOfNext lines i0).
Proof.
  intros lines. unfold parseBalanceFromText. fold lines.
  destruct (first_true (answers lines) (length lines))
    as [Hnone|[i0 [Hi0 [Hans Hfirst]]]].
  - rewrite balanceLoop_none by assumption. split.
    + split; [intros _; assumption|reflexivity].
    + intros b H. discriminate H.
  - rewrite (@balanceLoop_first lines _ i0) by assumption. split.
    + split; [discriminate|]. intros H. rewrite H in Hans by assumption.
      discriminate.
    + intros b H. inversion H. exists i0. auto.
Qed.

(** X5: [parseBalanceFromText] fails, with "balance not found in PDF",
    exactly when no line carrying a marker is followed by a line holding an
    amount; a balance it returns is the one read after the first such
    line. *)
Theorem balance_not_found_iff (text : str) :
  let lines := SplitLines text in
  (parseBalanceFromText text = Err "balance not found in PDF"
   <-> forall i, (0 <= i < Z.of_nat (length lines))%Z -> answers lines i = false)
  /\ (forall b,
        parseBalanceFromText text = Ok b ->
        exists i0,
          (0 <= i0 < Z.of_nat (length lines))%Z
          /\ answers lines i0 = true
          /\ (forall k, (0 <= k < i0)%Z -> answers lines k = false)
          /\ b = balanceOfNext lines i0).
Proof. apply balance_outcome. Qed.

Lemma answers_app lines more i :
  (0 <= i)%Z -> (i + 1 < Z.of_nat (length lines))%Z ->
  answers (lines ++ more) i = answers lines i
  /\ balanceOfNext (lines ++ more) i = balanceOfNext lines i.
Proof.
  intros H0 H1. unfold answers, balanceOfNext.
  rewrite !at_app by lia. rewrite length_app, Nat2Z.inj_add.
  replace (i + 1 <? Z.of_nat (length lines) + Z.of_nat (length more))%Z
    with true by (symmetry; apply Z.ltb_lt; lia).
  replace (i + 1 <? Z.of_nat (length lines))%Z
    with true by (symmetry; apply Z.ltb_lt; lia).
  auto.
Qed.

Lemma answers_next lines i :
  answers lines i = true -> (i + 1 < Z.of_nat (length lines))%Z.
Proof.
  unfold answers. intros H. apply andb_true_iff in H. destruct H as [H _].
  apply andb_true_iff in H. destruct H as [_ H]. now apply Z.ltb_lt.
Qed.

(** X6: a balance found in a statement text is still the balance found when
    more text follows a newline below it: the first marker line wins. *)
Theorem later_text_keeps_balance (text more : str) (b : AccountBalance) :
  parseBalanceFromText text = Ok b ->
  parseBalanceFromText (text ++ lit "
" ++ more) = Ok b.
Proof.
  intros H. destruct (balance_outcome text) as [_ Hok].
  destruct (Hok b H) as [i0 [Hi0 [Hans [Hfirst ->]]]].
  pose proof (answers_next _ _ Hans) as Hnext.
  unfold parseBalanceFromText. rewrite SplitLines_app_newline.
  set (lines := SplitLines text) in *. set (extra := SplitLines more).
  destruct (@answers_app lines extra i0) as [Ea Eb]; [lia|lia|].
  rewrite (@balanceLoop_first (lines ++ extra) _ i0).
  - now rewrite Eb.
  - rewrite length_app. lia.
  - now rewrite Ea.
  - intros k Hk. destruct (@answers_app lines extra k) as [Ek _]; [lia|lia|].
    rewrite Ek. now apply Hfirst.
Qed.

Lemma later_text_keeps_balance_witness :
  parseBalanceFromText (scenarioC ++ lit "
" ++ lit "Tu nuevo saldo
9,99€") = Ok (mkAccountBalance (lit "4,56")).
Proof.
  apply later_text_keeps_balance. vm_compute. reflexivity.
Defined.

(** Matches of a pattern without [$] do not depend on what follows. *)
Lemma matches_frame r s rest :
  matches r s rest -> noEot r = true ->
  forall t, matches r (s ++ t) (rest ++ t).
Proof.
  induction 1 as [p c rest Hp|bs rest|r1 r2 s mid rest _ IH1 _ IH2
                 |r s rest _ IH|r s|p s|p c s rest Hp _ IH|];
    simpl; intros Hn t; try discriminate.
  - now constructor.
  - rewrite <- app_assoc. constructor.
  - apply andb_true_iff in Hn. destruct Hn as [H1 H2].
    econstructor; [apply IH1|apply IH2]; assumption.
  - apply m_opt_some. now apply IH.
  - apply m_opt_none.
  - apply m_star_nil.
  - apply m_star_cons; [assumption|]. now apply IH.
Qed.

Lemma matches_cut r s rest :
  matches r s rest -> noEot r = true ->
  exists m, s = m ++ rest /\ matches r m [].
Proof.
  induction 1 as [p c rest Hp|bs rest|r1 r2 s mid rest _ IH1 _ IH2
                 |r s rest _ IH|r s|p s|p c s rest Hp _ IH|];
    simpl; intros Hn; try discriminate.
  - exists [c]. split; [reflexivity|now constructor].
  - exists bs. split; [reflexivity|].
    rewrite <- (app_nil_r bs) at 2. constructor.
  - apply andb_true_iff in Hn. destruct Hn as [H1 H2].
    destruct (IH1 H1) as [m1 [-> M1]]. destruct (IH2 H2) as [m2 [-> M2]].
    exists (m1 ++ m2). split; [now rewrite app_assoc|].
    econstructor; [|exact M2].
    apply (matches_frame M1 H1 m2).
  - destruct (IH Hn) as [m [-> M]]. exists m. split; [reflexivity|].
    now apply m_opt_some.
  - exists []. split; [reflexivity|apply m_opt_none].
  - exists []. split; [reflexivity|apply m_star_nil].
  - destruct (IH eq_refl) as [m [-> M]]. exists (c :: m).
    split; [reflexivity|]. now apply m_star_cons.
Qed.

Lemma oneOf_separator c :
  oneOf (lit ".,") c = true -> c = "."%char \/ c = ","%char.
Proof.
  unfold oneOf. simpl. intros H.
  destruct (Ascii.eqb_spec c "."); [auto|].
  destruct (Ascii.eqb_spec c ","); [auto|]. discriminate.
Qed.

(** A match of the amount pattern, taken apart. *)
Lemma amount_match_inv s m :
  matchHere (body amountPattern) s = Some m ->
  exists core ws cur,
    m = core ++ ws ++ cur
    /\ isSignedDecimal core
    /\ forallb space ws = true
    /\ (cur = [] \/ cur = euro).
Proof.
  intros H. apply matchHere_sound in H. destruct H as [rest [Hm Hs]].
  apply matches_cut in Hm; [|reflexivity]. destruct Hm as [m' [Hs' Hm]].
  rewrite Hs' in Hs. apply app_inv_tail in Hs. subst m'. clear Hs' s rest.
  simpl in Hm. revert Hm.
  generalize m. clear m. intros m Hm.
  invert_match; invert_star.
  all: match goal with
       | Hs : oneOf _ ?sg = true, Hp : oneOf _ ?sep = true
         |- exists _ _ _,
             ?sg :: ?d :: ?ds ++ ?sep :: ?a :: ?b :: ?w1 ++ euro ++ [] = _ /\ _ =>
           exists ([sg] ++ (d :: ds) ++ [sep; a; b]), w1, euro;
           split; [|split; [exists [sg], (d :: ds), sep, a, b|]]
       | Hs : oneOf _ ?sg = true, Hp : oneOf _ ?sep = true
         |- exists _ _ _,
             ?sg :: ?d :: ?ds ++ ?sep :: ?a :: ?b :: ?w1 ++ [] = _ /\ _ =>
           exists ([sg] ++ (d :: ds) ++ [sep; a; b]), w1, [];
           split; [|split; [exists [sg], (d :: ds), sep, a, b|]]
       | Hp : oneOf _ ?sep = true
         |- exists _ _ _,
             ?d :: ?ds ++ ?sep :: ?a :: ?b :: ?w1 ++ euro ++ [] = _ /\ _ =>
           exists ([] ++ (d :: ds) ++ [sep; a; b]), w1, euro;
           split; [|split; [exists [], (d :: ds), sep, a, b|]]
       | Hp : oneOf _ ?sep = true
         |- exists _ _ _,
             ?d :: ?ds ++ ?sep :: ?a :: ?b :: ?w1 ++ [] = _ /\ _ =>
           exists ([] ++ (d :: ds) ++ [sep; a; b]), w1, [];
           split; [|split; [exists [], (d :: ds), sep, a, b|]]
       end.
  all: try (simpl; rewrite ?app_nil_r, <- ?app_assoc; reflexivity).
  all: try (repeat split; auto; try discriminate;
            try (apply oneOf_sign; assumption);
            try (apply oneOf_separator; assumption);
            try (left; reflexivity);
            simpl; apply andb_true_iff; split; assumption).
  all: repeat split; auto.
Qed.

Lemma signedDecimal_core a : isSignedDecimal a -> coreText a.
Proof.
  intros [sign [ds [sep [d1 [d2 [-> [Hsign [[Hne Hds] [_ [H1 H2]]]]]]]]]]. split.
  - destruct ds as [|d ds]; [congruence|]. simpl in Hds.
    apply andb_true_iff in Hds. destruct Hds as [Hd _].
    destruct Hsign as [->|[->| ->]]; simpl; eexists; eexists;
      (split; [reflexivity|]); try reflexivity. now apply digit_plain.
  - rewrite !rev_app_distr. simpl. eauto.
Qed.

Lemma core_no_euro a : coreText a -> TrimSuffix a euro = a.
Proof.
  intros [_ [d [r [Hr Hd]]]]. unfold TrimSuffix.
  destruct (HasSuffix a euro) eqn:H; [|reflexivity].
  exfalso. apply HasSuffix_inv in H. destruct H as [p Hp].
  rewrite Hp, rev_app_distr in Hr. simpl in Hr. inversion Hr; subst.
  discriminate Hd.
Qed.

Lemma core_trim_spaces a ws :
  coreText a -> forallb space ws = true -> TrimSpace (a ++ ws) = a.
Proof.
  intros [[c [s [Hs Hc]]] [d [r [Hr Hd]]]] Hws.
  unfold TrimSpace, trimRight. rewrite trimLeft_id.
  - rewrite rev_app_distr, trimRev_spaces by assumption.
    rewrite trimRev_id; [apply rev_involutive|].
    rewrite Hr. apply plain_ends. now apply digit_plain.
  - rewrite Hs. simpl. now apply plain_starts.
Qed.

Lemma core_euro_trimmed a ws :
  coreText a -> TrimSpace (a ++ ws ++ euro) = a ++ ws ++ euro.
Proof.
  intros [[c [s [Hs Hc]]] _]. apply TrimSpace_id.
  - rewrite Hs. simpl. now apply plain_starts.
  - rewrite app_assoc, rev_app_distr.
    destruct (rev (a ++ ws)) as [|x [|y l]]; reflexivity.
Qed.

(** The amount text kept of a match of the amount pattern. *)
Lemma stripAmount_match s m :
  matchHere (body amountPattern) s = Some m -> isSignedDecimal (stripAmount m).
Proof.
  intros H. apply amount_match_inv in H.
  destruct H as [core [ws [cur [-> [Hcore [Hws Hcur]]]]]].
  pose proof (signedDecimal_core Hcore) as Hc.
  unfold stripAmount. destruct Hcur as [->| ->].
  - rewrite app_nil_r. rewrite core_trim_spaces by assumption.
    rewrite core_no_euro by assumption.
    rewrite <- (app_nil_r core) at 1.
    now rewrite core_trim_spaces.
  - rewrite core_euro_trimmed by assumption.
    rewrite app_assoc, TrimSuffix_app.
    now rewrite core_trim_spaces.
Qed.

Lemma last_In (A : Type) (l : list A) (d : A) : l <> [] -> In (last l d) l.
Proof.
  induction l as [|a l IH]; [congruence|]. intros _.
  destruct l as [|b l]; [now left|].
  right. apply IH. discriminate.
Qed.

(** X7: a balance returned by [parseBalanceFromText] is an optional sign,
    digits, a period or a comma and two digits: no currency symbol and no
    white space are kept. *)
Theorem balance_is_signed_decimal (text : str) (b : AccountBalance) :
  parseBalanceFromText text = Ok b -> isSignedDecimal (Balance b).
Proof.
  intros H. destruct (balance_outcome text) as [_ Hok].
  destruct (Hok b H) as [i0 [_ [Hans [_ ->]]]].
  unfold balanceOfNext. simpl.
  set (amounts := FindAllString balancePattern
                    (TrimSpace (at_ (SplitLines text) (i0 + 1)))) in *.
  assert (Hne : amounts <> []).
  { unfold answers in Hans. fold amounts in Hans.
    apply andb_true_iff in Hans. destruct Hans as [_ Hlen].
    apply Nat.ltb_lt in Hlen. intros E. rewrite E in Hlen. simpl in Hlen. lia. }
  pose proof (last_In [] Hne) as Hin.
  apply FindAllString_In in Hin. destruct Hin as [s' Hm].
  eapply stripAmount_match. exact Hm.
Qed.

Lemma balance_is_signed_decimal_witness :
  isSignedDecimal (Balance (mkAccountBalance (lit "4,56"))).
Proof.
  apply (@balance_is_signed_decimal scenarioC). vm_compute. reflexivity.
Defined.

(** ** Further properties: where the fields of a record come from *)

Lemma dateStep_sources t raw :
  (BookingDate (dateStep t raw) = BookingDate t
   \/ (Contains (TrimSpace raw) (lit "Fecha de valor") = false
       /\ (exists rest, FindAllString datePattern (TrimSpace raw)
                        = BookingDate (dateStep t raw) :: rest)
       /\ (len (TrimSpace raw) < 20)%Z))
  /\ (ValueDate (dateStep t raw) = ValueDate t
      \/ (Contains (TrimSpace raw) (lit "Fecha de valor") = true
          /\ exists rest, FindAllString datePattern (TrimSpace raw)
                          = ValueDate (dateStep t raw) :: rest)
      \/ (Contains (TrimSpace raw) (lit "Fecha de valor") = false
          /\ (exists rest, FindAllString datePattern (TrimSpace raw)
                           = ValueDate (dateStep t raw) :: rest)
          /\ (len (TrimSpace raw) < 20)%Z)).
Proof.
  date_cases raw; split; auto.
  all: try (right; split; [reflexivity|]; split; [eauto|]; now apply Z.ltb_lt).
  all: try (right; left; split; [reflexivity|]; eauto).
  all: right; right; split; [reflexivity|]; split; [eauto|]; now apply Z.ltb_lt.
Qed.

Lemma datesAt_sourced lines i : sourced lines i (datesAt lines i).
Proof.
  unfold datesAt, resolveDates. fold (dateWindow i).
  apply (fold_invariant (fun t j => dateStep t (at_ lines j)) (sourced lines i)).
  - intros a j Hj [Hb Hv].
    destruct (dateStep_sources a (at_ lines j)) as [Sb Sv]. split.
    + destruct Sb as [->|[Hc [Hf Hl]]]; [assumption|].
      right. exists j. split; [assumption|]. repeat split; assumption.
    + destruct Sv as [->|[[Hc Hf]|[Hc [Hf Hl]]]]; [assumption| |];
        right; exists j; (split; [assumption|]).
      * left. split; assumption.
      * right. repeat split; assumption.
  - split; now left.
Qed.

(** What an emitted record is made of. *)
Lemma emitted_fields lower lines i tx :
  transactionAt lower lines i = Some tx ->
  amountLineText (TrimSpace (at_ lines i))
  /\ Amount tx = stripAmount (TrimSpace (at_ lines i))
  /\ isSignedCommaDecimal (Amount tx)
  /\ (exists j, In j (partnerWindow i) /\ candidate lines j = true
                /\ PartnerName tx = TrimSpace (at_ lines j))
  /\ (exists j, In j (dateWindow i) /\ bookingLine lines j (BookingDate tx))
  /\ (exists j, In j (dateWindow i)
                /\ (valueLine lines j (ValueDate tx)
                    \/ bookingLine lines j (ValueDate tx)))
  /\ isRealTransaction lower (blockAt lines i) = true
  /\ PartnerName tx = PartnerName (blockAt lines i).
Proof.
  intros H. apply transactionAt_inv in H. destruct H as [Hm [Hb [Hreal Htx]]].
  set (b := blockAt lines i) in *.
  destruct (blockAt_fields lines i) as [Eb [Ev [Ea _]]]. fold b in Eb, Ev, Ea.
  destruct (@amountLine_trimmed _ Hm) as [amount [ws [cur [Hs [Ha [Hws [Hcur Hst]]]]]]].
  assert (Hfields : Amount tx = Amount b /\ BookingDate tx = BookingDate b
                    /\ PartnerName tx = PartnerName b
                    /\ (ValueDate tx = ValueDate b /\ isEmpty (ValueDate b) = false
                        \/ ValueDate tx = BookingDate b)).
  { rewrite Htx. destruct (isEmpty (ValueDate b)) eqn:E; simpl; auto 6. }
  destruct Hfields as [E1 [E2 [E3 E4]]].
  destruct (datesAt_sourced lines i) as [Sb Sv].
  rewrite <- Eb in Sb. rewrite <- Ev in Sv.
  assert (Hbook : exists j, In j (dateWindow i)
                            /\ bookingLine lines j (BookingDate b)).
  { destruct Sb as [E|S]; [rewrite E in Hb; discriminate|assumption]. }
  split; [exists amount, ws, cur; auto|].
  split; [congruence|]. split; [rewrite E1, Ea, Hst; assumption|].
  split.
  { rewrite E3. destruct (blockAt_partner lines i) as [[_ Hnil]|[j [Hj [Hc [Hn _]]]]].
    - fold b in Hnil. unfold isRealTransaction in Hreal. rewrite Hnil in Hreal.
      discriminate Hreal.
    - exists j. auto. }
  split; [rewrite E2; assumption|]. split; [|auto].
  destruct E4 as [[-> Hne]| ->].
  - destruct Sv as [E|S]; [rewrite E in Hne; discriminate|assumption].
  - destruct Hbook as [j [Hj Hl]]. exists j. auto.
Qed.

(** X8: every field of a returned record is read from the text at or above
    its amount line: the amount from a full-line amount, the partner name
    from a candidate line 2 to 8 lines above it, the booking date from a
    short date line at most 10 lines above it, the value date from a
    "Fecha de valor" line or a short date line at most 10 lines above it. *)
Theorem record_fields_come_from_the_text
    (lower : str -> str) (text : str) (txs : list Transaction) (tx : Transaction) :
  parseTransactionsFromText lower text = Ok txs ->
  In tx txs ->
  let lines := SplitLines text in
  exists i,
    (0 <= i < Z.of_nat (length lines))%Z
    /\ amountLineText (TrimSpace (at_ lines i))
    /\ Amount tx = stripAmount (TrimSpace (at_ lines i))
    /\ (exists j, (max 0 (i - 8) <= j < i - 1)%Z /\ candidate lines j = true
                  /\ PartnerName tx = TrimSpace (at_ lines j))
    /\ (exists j, (max 0 (i - 10) <= j < i)%Z
                  /\ bookingLine lines j (BookingDate tx))
    /\ (exists j, (max 0 (i - 10) <= j < i)%Z
                  /\ (valueLine lines j (ValueDate tx)
                      \/ bookingLine lines j (ValueDate tx))).
Proof.
  intros Hp Hin lines.
  destruct (@parse_In lower text txs tx Hp Hin) as [i [Hi Ht]].
  apply emitted_fields in Ht.
  destruct Ht as [Hl [Ha [_ [[j [Hj Hc]] [[jb [Hjb Hb]] [[jv [Hjv Hv]] _]]]]]].
  exists i. split; [assumption|]. split; [assumption|]. split; [assumption|].
  split; [exists j; split; [now apply In_range|assumption]|].
  split; [exists jb; split; [now apply In_range|assumption]|].
  exists jv. split; [now apply In_range|assumption].
Qed.

Lemma record_fields_come_from_the_text_witness :
  let lines := SplitLines statementBlock in
  exists i,
    (0 <= i < Z.of_nat (length lines))%Z
    /\ amountLineText (TrimSpace (at_ lines i))
    /\ Amount supermarket = stripAmount (TrimSpace (at_ lines i))
    /\ (exists j, (max 0 (i - 8) <= j < i - 1)%Z /\ candidate lines j = true
                  /\ PartnerName supermarket = TrimSpace (at_ lines j))
    /\ (exists j, (max 0 (i - 10) <= j < i)%Z
                  /\ bookingLine lines j (BookingDate supermarket))
    /\ (exists j, (max 0 (i - 10) <= j < i)%Z
                  /\ (valueLine lines j (ValueDate supermarket)
                      \/ bookingLine lines j (ValueDate supermarket))).
Proof.
  apply (@record_fields_come_from_the_text lowerBytes statementBlock [supermarket]).
  - vm_compute. reflexivity.
  - left. reflexivity.
Defined.

Lemma skipped_false_inv s :
  skipped s = false ->
  MatchString datePattern s = false
  /\ MatchString amountPattern s = false
  /\ forall w, In w metadataWords -> Contains s w = false.
Proof.
  unfold skipped. intros H.
  apply orb_false_iff in H. destruct H as [H Hw].
  apply orb_false_iff in H. destruct H as [H Ha].
  apply orb_false_iff in H. destruct H as [_ Hd].
  split; [assumption|]. split; [assumption|].
  intros w Hin. destruct (Contains s w) eqn:E; [|reflexivity].
  assert (existsb (Contains s) metadataWords = true)
    by (apply existsb_exists; eauto).
  congruence.
Qed.

(** X9: the partner name of a returned record holds no date, no amount and
    none of the words "Fecha", "Descripción", "Cantidad", "Mastercard",
    "IBAN", "BIC", "Emitido", "Transferencias", "Enviada", "Actividad",
    "salientes", and it is not a page number. *)
Theorem partner_name_is_clean
    (lower : str -> str) (text : str) (txs : list Transaction) (tx : Transaction) :
  parseTransactionsFromText lower text = Ok txs ->
  In tx txs ->
  MatchString datePattern (PartnerName tx) = false
  /\ MatchString amountPattern (PartnerName tx) = false
  /\ (forall w, In w metadataWords -> Contains (PartnerName tx) w = false)
  /\ MatchString pageNumberPattern (PartnerName tx) = false.
Proof.
  intros Hp Hin.
  destruct (@parse_In lower text txs tx Hp Hin) as [i [_ Ht]].
  apply emitted_fields in Ht.
  destruct Ht as [_ [_ [_ [[j [_ [Hc Hn]]] [_ [_ [Hreal Hb]]]]]]].
  unfold candidate in Hc. apply negb_true_iff in Hc.
  apply skipped_false_inv in Hc. rewrite <- Hn in Hc.
  destruct Hc as [Hd [Ha Hw]].
  split; [assumption|]. split; [assumption|]. split; [assumption|].
  apply isRealTransaction_inv in Hreal. destruct Hreal as [Hpg _].
  rewrite <- Hb in Hpg. rewrite Hn in Hpg. rewrite TrimSpace_idempotent in Hpg.
  now rewrite Hn.
Qed.

Lemma partner_name_is_clean_witness :
  MatchString datePattern (PartnerName supermarket) = false
  /\ MatchString amountPattern (PartnerName supermarket) = false
  /\ (forall w, In w metadataWords -> Contains (PartnerName supermarket) w = false)
  /\ MatchString pageNumberPattern (PartnerName supermarket) = false.
Proof.
  apply (@partner_name_is_clean lowerBytes statementBlock [supermarket]).
  - vm_compute. reflexivity.
  - left. reflexivity.
Defined.

Lemma ToLower_ascii lower s :
  forallb isASCII s = true -> ToLower lower s = map lowerASCII s.
Proof. intros H. unfold ToLower. now rewrite H. Qed.

(** X10: the filter on header words ignores letter case: a returned record
    whose partner name is ASCII does not contain, once lowered, the lowered
    form of "Saldo previo", "Saldo", "Balance", "Emitido",
    "Fecha de reserva", "Cantidad" or "Actividad de la cuenta". *)
Theorem header_words_rejected_in_any_case
    (lower : str -> str) (text : str) (txs : list Transaction) (tx : Transaction)
    (pattern : str) :
  parseTransactionsFromText lower text = Ok txs ->
  In tx txs ->
  forallb isASCII (PartnerName tx) = true ->
  In pattern skipPatterns ->
  forallb isASCII pattern = true ->
  Contains (map lowerASCII (PartnerName tx)) (map lowerASCII pattern) = false.
Proof.
  intros Hp Hin Hascii Hpat Hpa.
  destruct (@parse_In lower text txs tx Hp Hin) as [i [_ Ht]].
  apply emitted_fields in Ht.
  destruct Ht as [_ [_ [_ [[j [_ [_ Hn]]] [_ [_ [Hreal Hb]]]]]]].
  unfold isRealTransaction in Hreal. rewrite <- Hb, Hn in Hreal.
  rewrite TrimSpace_idempotent in Hreal. rewrite <- Hn in Hreal.
  destruct (isEmpty (PartnerName tx)); [discriminate|].
  destruct (MatchString pageNumberPattern (PartnerName tx)); [discriminate|].
  destruct (existsb _ skipPatterns) eqn:E; [discriminate|].
  destruct (Contains (map lowerASCII (PartnerName tx)) (map lowerASCII pattern))
    eqn:Hc; [|reflexivity].
  assert (existsb (fun p => Contains (ToLower lower (PartnerName tx)) (ToLower lower p))
            skipPatterns = true).
  { apply existsb_exists. exists pattern. split; [assumption|].
    now rewrite !ToLower_ascii. }
  congruence.
Qed.

Lemma header_words_rejected_in_any_case_witness :
  Contains (map lowerASCII (PartnerName supermarket)) (map lowerASCII (lit "Saldo"))
  = false.
Proof.
  apply (@header_words_rejected_in_any_case lowerBytes statementBlock [supermarket]).
  - vm_compute. reflexivity.
  - left. reflexivity.
  - vm_compute. reflexivity.
  - right. left. reflexivity.
  - vm_compute. reflexivity.
Defined.

(** ** Further properties: order, number and preconditions of records *)

Lemma increasing_snoc (l : list Z) (n : Z) :
  Sorted.StronglySorted Z.lt l -> Forall (fun i => (i < n)%Z) l ->
  Sorted.StronglySorted Z.lt (l ++ [n]).
Proof.
  induction 1 as [|a l Hs IH Ha]; intros Hn; simpl.
  - constructor; constructor.
  - inversion Hn; subst. constructor; [now apply IH|].
    apply Forall_app. split; [assumption|]. constructor; [assumption|constructor].
Qed.

Lemma records_in_line_order lower lines (n : nat) :
  exists idxs,
    Sorted.StronglySorted Z.lt idxs
    /\ Forall (fun i => (0 <= i < Z.of_nat n)%Z) idxs
    /\ Forall2 (fun i tx => transactionAt lower lines i = Some tx) idxs
         (fold_left (appendAt lower lines) (range 0 (Z.of_nat n)) [])
    /\ (forall i, (0 <= i < Z.of_nat n)%Z ->
                  transactionAt lower lines i <> None -> In i idxs).
Proof.
  induction n as [|n [idxs [Hs [Hr [Hf Hall]]]]].
  - exists []. repeat split; try constructor. intros i Hi. lia.
  - rewrite Nat2Z.inj_succ. unfold Z.succ. rewrite range_snoc by lia.
    rewrite fold_left_app. simpl. unfold appendAt at 1.
    destruct (transactionAt lower lines (Z.of_nat n)) as [tx|] eqn:E.
    + exists (idxs ++ [Z.of_nat n]). split; [|split; [|split]].
      * apply increasing_snoc; [assumption|].
        eapply Forall_impl; [|exact Hr]. simpl. intros. lia.
      * apply Forall_app. split.
        -- eapply Forall_impl; [|exact Hr]. simpl. intros. lia.
        -- constructor; [lia|constructor].
      * apply Forall2_app; [assumption|]. constructor; [assumption|constructor].
      * intros i Hi Hne. apply in_or_app.
        destruct (Z.eq_dec i (Z.of_nat n)) as [->|Hd]; [right; now left|].
        left. apply Hall; [lia|assumption].
    + exists idxs. split; [assumption|]. split; [|split; [assumption|]].
      * eapply Forall_impl; [|exact Hr]. simpl. intros. lia.
      * intros i Hi Hne. destruct (Z.eq_dec i (Z.of_nat n)) as [->|Hd];
          [congruence|]. apply Hall; [lia|assumption].
Qed.

(** X11: the records are returned in the order of their amount lines: they
    are the records emitted at a strictly increasing sequence of lines, which
    holds every line that emits one; so there are at most as many records
    as lines. *)
Theorem records_follow_line_order (lower : str -> str) (text : str) :
  let lines := SplitLines text in
  exists idxs txs,
    parseTransactionsFromText lower text = Ok txs
    /\ Sorted.StronglySorted Z.lt idxs
    /\ Forall (fun i => (0 <= i < Z.of_nat (length lines))%Z) idxs
    /\ Forall2 (fun i tx => transactionAt lower lines i = Some tx) idxs txs
    /\ (forall i, (0 <= i < Z.of_nat (length lines))%Z ->
                  transactionAt lower lines i <> None -> In i idxs)
    /\ (length txs <= length lines)%nat.
Proof.
  intros lines.
  destruct (records_in_line_order lower lines (length lines))
    as [idxs [Hs [Hr [Hf Hall]]]].
  exists idxs. eexists. split; [reflexivity|]. fold lines.
  split; [assumption|]. split; [assumption|]. split; [assumption|].
  split; [assumption|].
  rewrite appendAt_fold. simpl.
  assert (Hlen : forall l,
             (length (flat_map (fun i => match transactionAt lower lines i with
                                         | Some tx => [tx]
                                         | None => []
                                         end) l) <= length l)%nat).
  { induction l as [|i l IH]; simpl; [lia|].
    rewrite length_app. destruct (transactionAt lower lines i); simpl; lia. }
  etransitivity; [apply Hlen|]. unfold range. rewrite length_map, length_seq. lia.
Qed.

Lemma transactionAt_no_booking lower lines i :
  isEmpty (BookingDate (blockAt lines i)) = true ->
  transactionAt lower lines i = None.
Proof.
  intros H. unfold transactionAt. fold (blockAt lines i). rewrite H. simpl.
  destruct (isEmpty (TrimSpace (at_ lines i))); [reflexivity|].
  now destruct (MatchString amountLinePattern (TrimSpace (at_ lines i))).
Qed.

(** X12: an amount line without a booking date above it emits nothing: when
    no line of its date window is a short date line free of
    "Fecha de valor", no record is returned for it, whatever value dates
    the window holds. *)
Theorem no_record_without_booking_line
    (lower : str -> str) (lines : list str) (i : Z) :
  (forall j d, In j (dateWindow i) -> ~ bookingLine lines j d) ->
  transactionAt lower lines i = None.
Proof.
  intros H. apply transactionAt_no_booking.
  destruct (blockAt_fields lines i) as [-> _].
  destruct (datesAt_sourced lines i) as [[->|[j [Hj Hb]]] _]; [reflexivity|].
  exfalso. exact (H j _ Hj Hb).
Qed.

Lemma no_record_without_booking_line_witness :
  transactionAt lowerBytes
    (SplitLines (lit "SUPERMARKET XYZ
Compras
Fecha de valor 05.10.2025
-12,34€")) 3 = None.
Proof.
  apply no_record_without_booking_line.
  intros j d Hj [Hm [[rest Hf] _]]. apply In_range in Hj. rewrite max_spec in Hj.
  assert (Hc : j = 0%Z \/ j = 1%Z \/ j = 2%Z) by lia.
  destruct Hc as [->|[->| ->]];
    first [ vm_compute in Hm; discriminate Hm | vm_compute in Hf; discriminate Hf ].
Defined.

(** X13: an amount line needs a partner line at least two lines above it:
    no record is emitted for the first two lines of a text, nor for a line
    whose partner window holds no candidate line. *)
Theorem no_record_without_partner_line
    (lower : str -> str) (lines : list str) (i : Z) :
  ((i <= 1)%Z -> transactionAt lower lines i = None)
  /\ ((forall j, In j (partnerWindow i) -> candidate lines j = false) ->
      transactionAt lower lines i = None).
Proof.
  assert (H : (forall j, In j (partnerWindow i) -> candidate lines j = false) ->
              transactionAt lower lines i = None).
  { intros Hnone. apply transactionAt_not_real.
    destruct (blockAt_partner lines i) as [[_ Hnil]|[j [Hj [Hc _]]]].
    - unfold isRealTransaction. rewrite Hnil. reflexivity.
    - rewrite (Hnone j Hj) in Hc. discriminate. }
  split; [|exact H].
  intros Hi. apply H. intros j Hj. apply In_range in Hj.
  rewrite max_spec in Hj. lia.
Qed.

(** ** Further properties: statement keys and the notified statements *)

Lemma cut_at_first (c : ascii) (x1 y1 x2 y2 : str) :
  ~ In c x1 -> ~ In c x2 ->
  x1 ++ c :: y1 = x2 ++ c :: y2 -> x1 = x2 /\ y1 = y2.
Proof.
  revert x2. induction x1 as [|a x1 IH]; intros [|b x2] H1 H2 E; simpl in *.
  - inversion E. auto.
  - inversion E; subst. exfalso. apply H2. now left.
  - inversion E; subst. exfalso. apply H1. now left.
  - inversion E; subst. destruct (IH x2) as [-> ->]; auto.
Qed.

Lemma key_injective d1 p1 a1 d2 p2 a2 :
  ~ In "|"%char d1 -> ~ In "|"%char d2 ->
  ~ In "|"%char a1 -> ~ In "|"%char a2 ->
  generateStatementKey d1 p1 a1 = generateStatementKey d2 p2 a2 ->
  d1 = d2 /\ p1 = p2 /\ a1 = a2.
Proof.
  intros Hd1 Hd2 Ha1 Ha2 E. unfold generateStatementKey in E. simpl in E.
  apply cut_at_first in E; [|assumption|assumption]. destruct E as [-> E].
  split; [reflexivity|].
  apply (f_equal (@rev ascii)) in E. rewrite !rev_app_distr in E. simpl in E.
  rewrite <- !app_assoc in E. simpl in E.
  apply cut_at_first in E;
    [|rewrite <- in_rev; assumption|rewrite <- in_rev; assumption].
  destruct E as [Ea Ep]. split.
  - rewrite <- (rev_involutive p1), <- (rev_involutive p2). now f_equal.
  - rewrite <- (rev_involutive a1), <- (rev_involutive a2). now f_equal.
Qed.

Lemma digit_not_bar c : digit c = true -> c <> "|"%char.
Proof. intros H ->. discriminate H. Qed.

Lemma date_no_bar d : isDateText d = true -> ~ In "|"%char d.
Proof.
  intros H. do 10 (destruct d as [|? d]; [discriminate H|]).
  destruct d; [|discriminate H]. simpl in H.
  do 9 (apply andb_true_iff in H; destruct H as [H ?]).
  repeat match goal with
         | E : Ascii.eqb _ _ = true |- _ => apply Ascii.eqb_eq in E; subst
         | E : digit _ = true |- _ => apply digit_not_bar in E
         end.
  simpl. intros Hin.
  repeat (destruct Hin as [Hin|Hin]; [try congruence; discriminate Hin|]).
  exact Hin.
Qed.

Lemma decimal_no_bar a : isSignedCommaDecimal a -> ~ In "|"%char a.
Proof.
  intros [sign [ds [d1 [d2 [-> [Hsign [[_ Hds] [H1 H2]]]]]]]] Hin.
  apply in_app_or in Hin. destruct Hin as [Hin|Hin].
  - destruct Hsign as [->|[->| ->]]; simpl in Hin;
      [exact Hin|destruct Hin as [E|[]]; discriminate E
      |destruct Hin as [E|[]]; discriminate E].
  - apply in_app_or in Hin. destruct Hin as [Hin|Hin].
    + rewrite forallb_forall in Hds. apply Hds in Hin. discriminate Hin.
    + apply digit_not_bar in H1, H2. simpl in Hin.
      destruct Hin as [E|[E|[E|[]]]]; [discriminate E|congruence|congruence].
Qed.

Lemma emitted_key_parts lower lines i tx :
  transactionAt lower lines i = Some tx ->
  ~ In "|"%char (BookingDate tx) /\ ~ In "|"%char (Amount tx).
Proof.
  intros H. apply emitted_fields in H.
  destruct H as [_ [_ [Ha [_ [[j [_ [_ [[rest Hf] _]]]] _]]]]]. split.
  - apply date_no_bar.
    apply (@FindAllString_date_shape (TrimSpace (at_ lines j))).
    rewrite Hf. now left.
  - now apply decimal_no_bar.
Qed.

(** X14: the statement key tells the booking date, the partner name and the
    amount of a returned record: two returned records, of the same text or
    not, with equal keys agree on the three fields. *)
Theorem statement_key_identifies_record
    (lower : str -> str) (text1 text2 : str)
    (txs1 txs2 : list Transaction) (tx1 tx2 : Transaction) :
  parseTransactionsFromText lower text1 = Ok txs1 -> In tx1 txs1 ->
  parseTransactionsFromText lower text2 = Ok txs2 -> In tx2 txs2 ->
  generateStatementKey (BookingDate tx1) (PartnerName tx1) (Amount tx1)
  = generateStatementKey (BookingDate tx2) (PartnerName tx2) (Amount tx2) ->
  BookingDate tx1 = BookingDate tx2
  /\ PartnerName tx1 = PartnerName tx2
  /\ Amount tx1 = Amount tx2.
Proof.
  intros Hp1 Hin1 Hp2 Hin2 E.
  destruct (@parse_In lower text1 txs1 tx1 Hp1 Hin1) as [i1 [_ H1]].
  destruct (@parse_In lower text2 txs2 tx2 Hp2 Hin2) as [i2 [_ H2]].
  apply emitted_key_parts in H1, H2.
  destruct H1 as [Hd1 Ha1]. destruct H2 as [Hd2 Ha2].
  now apply key_injective.
Qed.

Lemma statement_key_identifies_record_witness :
  BookingDate supermarket = BookingDate supermarket
  /\ PartnerName supermarket = PartnerName supermarket
  /\ Amount supermarket = Amount supermarket.
Proof.
  apply (@statement_key_identifies_record lowerBytes statementBlock statementBlock
           [supermarket] [supermarket]).
  - vm_compute. reflexivity.
  - left. reflexivity.
  - vm_compute. reflexivity.
  - left. reflexivity.
  - reflexivity.
Defined.

Lemma collectNew_filter f txs acc :
  fold_left (collectStep f) txs acc
  = acc ++ map statementOf (filter (fun tx => negb (reportedNotified f (Key (statementOf tx)))) txs).
Proof.
  revert acc. induction txs as [|tx txs IH]; intros acc; simpl.
  - now rewrite app_nil_r.
  - rewrite IH. unfold collectStep, reportedNotified, statementOf. simpl.
    destruct (f (generateStatementKey (BookingDate tx) (PartnerName tx) (Amount tx)))
      as [[|]|]; simpl; try reflexivity; now rewrite <- app_assoc.
Qed.


Lemma collect_all_when_failing f txs :
  (forall key, exists err, f key = Err err) ->
  filter (fun tx => negb (reportedNotified f (Key (statementOf tx)))) txs = txs.
Proof.
  intros H. induction txs as [|tx txs IH]; [reflexivity|].
  cbn [filter]. unfold reportedNotified at 1.
  destruct (H (Key (statementOf tx))) as [err ->]. cbn [negb]. now rewrite IH.
Qed.

Lemma collect_none_when_notified f txs :
  (forall tx, In tx txs -> f (Key (statementOf tx)) = Ok true) ->
  collectNew f txs = [].
Proof.
  intros H. unfold collectNew. rewrite collectNew_filter. cbn [app].
  induction txs as [|tx txs IH]; [reflexivity|].
  cbn [filter]. unfold reportedNotified at 1. rewrite (H tx) by now left.
  cbn [negb]. apply IH. intros tx' Hin. apply H. now right.
Qed.

(** X15: the statements collected for a notification are, in the order of
    the transactions, those whose key the repository does not report as
    notified; a lookup that fails counts as not notified, so that with a
    repository that always fails every transaction is collected. *)
Theorem collected_statements
    (IsNotifiedFn : str -> result bool) (transactions : list Transaction) :
  collectNew IsNotifiedFn transactions
  = map statementOf
      (filter (fun tx => negb (reportedNotified IsNotifiedFn (Key (statementOf tx))))
              transactions)
  /\ ((forall key, exists err, IsNotifiedFn key = Err err) ->
      collectNew IsNotifiedFn transactions = map statementOf transactions)
  /\ ((forall tx, In tx transactions ->
                  IsNotifiedFn (Key (statementOf tx)) = Ok true) ->
      collectNew IsNotifiedFn transactions = []).
Proof.
  split; [|split].
  - unfold collectNew. now rewrite collectNew_filter.
  - intros H. unfold collectNew. rewrite collectNew_filter. cbn [app].
    now rewrite collect_all_when_failing.
  - apply collect_none_when_notified.
Qed.

Lemma marked_lookup db keys k :
  MarkMultipleAsNotified db keys k
  = if existsb (eqb_str k) keys then Some true else db k.
Proof.
  unfold MarkMultipleAsNotified. revert db.
  induction keys as [|key keys IH]; intros db; simpl; [reflexivity|].
  rewrite IH. unfold upsertNotified.
  destruct (existsb (eqb_str k) keys); [now rewrite orb_true_r|].
  rewrite orb_false_r. reflexivity.
Qed.

Lemma existsb_eqb_str k keys : existsb (eqb_str k) keys = true <-> In k keys.
Proof.
  rewrite existsb_exists. split.
  - intros [x [Hin E]]. apply eqb_str_eq in E. now subst.
  - intros H. exists k. split; [assumption|now apply eqb_str_eq].
Qed.

(** X16: after [MarkMultipleAsNotified], every key of the list is reported
    as notified, and the answer for any other key is what it was. *)
Theorem marked_keys_are_notified (db : Table) (keys : list str) (k : str) :
  (In k keys -> IsNotified (MarkMultipleAsNotified db keys) k = Ok true)
  /\ (~ In k keys ->
      IsNotified (MarkMultipleAsNotified db keys) k = IsNotified db k).
Proof.
  unfold IsNotified. rewrite marked_lookup. split; intros H.
  - apply existsb_eqb_str in H. now rewrite H.
  - destruct (existsb (eqb_str k) keys) eqn:E; [|reflexivity].
    apply existsb_eqb_str in E. contradiction.
Qed.


(** ** Further properties: the cookie header *)

Lemma cookie_parts cookies acc :
  fold_left cookieStep cookies acc
  = acc ++ map (fun c => Name c ++ lit "=" ++ Value c)
             (filter (fun c => Contains (Domain c) (lit "n26.com")) cookies).
Proof.
  revert acc. induction cookies as [|c cookies IH]; intros acc; cbn [fold_left filter].
  - cbn [map]. now rewrite app_nil_r.
  - rewrite IH. unfold cookieStep.
    destruct (Contains (Domain c) (lit "n26.com")); [|reflexivity].
    cbn [map]. now rewrite <- app_assoc.
Qed.

Lemma Join_nil_inv parts sep :
  Forall (fun p => p <> []) parts -> Join parts sep = [] -> parts = [].
Proof.
  intros H E. destruct parts as [|p parts]; [reflexivity|].
  inversion H; subst. exfalso.
  destruct parts as [|q parts]; simpl in E; [contradiction|].
  destruct p; [contradiction|discriminate E].
Qed.

(** X18: [formatCookiesAsHeader] reads only the cookies whose domain
    contains "n26.com": dropping the others leaves the header unchanged,
    and the header is empty exactly when there is no such cookie. *)
Theorem cookie_header_uses_n26_cookies_only (cookies : list Cookie) :
  let n26 := fun c => Contains (Domain c) (lit "n26.com") in
  formatCookiesAsHeader (filter n26 cookies) = formatCookiesAsHeader cookies
  /\ (formatCookiesAsHeader cookies = []
      <-> forall c, In c cookies -> n26 c = false).
Proof.
  intros n26.
  assert (Hfmt : forall cs,
             formatCookiesAsHeader cs
             = Join (map (fun c => Name c ++ lit "=" ++ Value c) (filter n26 cs))
                    (lit "; ")).
  { intros cs. unfold formatCookiesAsHeader. rewrite cookie_parts. cbn [app].
    fold n26. destruct cs; reflexivity. }
  split.
  - rewrite !Hfmt. f_equal. f_equal.
    induction cookies as [|c cookies IH]; [reflexivity|]. cbn [filter].
    destruct (n26 c) eqn:E; cbn [filter]; rewrite ?E, IH; reflexivity.
  - rewrite Hfmt. split.
    + intros E c Hin. apply Join_nil_inv in E.
      * destruct (n26 c) eqn:Hc; [|reflexivity].
        assert (In c (filter n26 cookies)) by (apply filter_In; auto).
        apply (in_map (fun c => Name c ++ lit "=" ++ Value c)) in H.
        rewrite E in H. contradiction.
      * apply Forall_forall. intros p Hp. apply in_map_iff in Hp.
        destruct Hp as [c' [<- _]]. intros E'. apply app_eq_nil in E'.
        destruct E' as [_ E']. discriminate E'.
    + intros H. replace (filter n26 cookies) with (@nil Cookie); [reflexivity|].
      symmetry. induction cookies as [|c cookies IH]; [reflexivity|].
      cbn [filter]. rewrite (H c) by now left. apply IH.
      intros c' Hin. apply H. now right.
Qed.
